(** * Triton AMD backend: inline-assembly builder, IR builders and HSACO pipeline

    A shallow embedding of
      - include/triton/Conversion/TritonGPUToLLVM/GCNAsmFormat.h
      - lib/ir/Ops.cpp
      - lib/Target/HSACO/HSACOTranslation.cpp
    C++ objects that are reached through pointers (operands, instructions,
    LLVM modules) live in explicit stores and are named by their position
    there; methods thread the store through a small state-and-failure
    monad. *)

From Stdlib Require Import ZArith Ascii List Bool Lia.
From Stdlib Require Import DecimalString.
From stdpp Require Import base option list strings.

Open Scope Z_scope.

(** ** How a C++ call can end *)

Module Cxx.

(** A call either returns, or stops the process: a failed [assert], a
    member call through a null pointer or null handle, or
    [llvm::report_fatal_error]. *)
Inductive outcome (A : Type) : Type :=
| Returned (a : A)
| AssertFail (expr : string)
| NullDeref
| FatalError (msg : string).

Arguments Returned {A} a.
Arguments AssertFail {A} expr.
Arguments NullDeref {A}.
Arguments FatalError {A} msg.

(** Methods of an object kept in a store of type [S]. *)
Definition M (S A : Type) : Type := S -> outcome (A * S).

Definition ret {S A} (a : A) : M S A := fun s => Returned (a, s).

Definition bind {S A B} (m : M S A) (k : A -> M S B) : M S B :=
  fun s =>
    match m s with
    | Returned (a, s') => k a s'
    | AssertFail e => AssertFail e
    | NullDeref => NullDeref
    | FatalError e => FatalError e
    end.

Definition get {S} : M S S := fun s => Returned (s, s).
Definition put {S} (s : S) : M S unit := fun _ => Returned (tt, s).
Definition modify {S} (f : S -> S) : M S unit := fun s => Returned (tt, f s).
Definition abort {S A} (o : outcome (A * S)) : M S A := fun _ => o.

(** [assert(cond)] with assertions compiled in (no NDEBUG). *)
Definition assert {S} (cond : bool) (expr : string) : M S unit :=
  fun s => if cond then Returned (tt, s) else AssertFail expr.

(** A [for] loop over a range, in order. *)
Fixpoint for_each {S A} (l : list A) (body : A -> M S unit) : M S unit :=
  match l with
  | [] => ret tt
  | x :: l' => bind (body x) (fun _ => for_each l' body)
  end.

(** Decimal text of an [int], as [operator<<] prints it. *)
Definition show_int (z : Z) : string := NilZero.string_of_int (Z.to_int z).

(** [std::endl]. *)
Definition endl : string := String (ascii_of_nat 10) EmptyString.

End Cxx.

Import Cxx.

Declare Scope cxx_scope.
Delimit Scope cxx_scope with cxx.
Notation "x <- m ;; k" := (bind m (fun x => k))
  (at level 100, m at next level, right associativity) : cxx_scope.
Notation "m ;;; k" := (bind m (fun _ => k))
  (at level 100, right associativity) : cxx_scope.

(** ** GCNAsmFormat.h *)

Module GCN.

(** [mlir::Value] is a nullable handle; [!value] tests for null. *)
Inductive Value : Type :=
| NullValue
| SSAValue (id : nat).

Definition hasValue (v : Value) : bool :=
  match v with NullValue => false | SSAValue _ => true end.

(** [Operand *], [Modifier *], [GCNInstrCommon *], [GCNInstrExecution *]:
    the position of the object in the archive of the builder that owns it. *)
Abbreviation OperandRef := nat (only parsing).
Abbreviation ModifierRef := nat (only parsing).
Abbreviation InstrRef := nat (only parsing).
Abbreviation ExecutionRef := nat (only parsing).

(** [struct GCNBuilder::Operand]; [olist] is the member [list]. *)
Record Operand : Type := mkOperand {
  constraint : string;
  value : Value;
  idx : Z;
  olist : list OperandRef;
  repr : option (Z -> string)
}.

(** [Operand() = default]. *)
Definition Operand_default : Operand :=
  {| constraint := ""; value := NullValue; idx := -1; olist := []; repr := None |}.

(** [Operand(Value value, StringRef constraint)]. *)
Definition Operand_bound (v : Value) (c : string) : Operand :=
  {| constraint := c; value := v; idx := -1; olist := []; repr := None |}.

Definition isEmpty (s : string) : bool :=
  match s with EmptyString => true | String _ _ => false end.

(** [bool isList() const { return !value && constraint.empty(); }] *)
Definition isList (o : Operand) : bool :=
  negb (hasValue (value o)) && isEmpty (constraint o).

Definition set_idx (i : Z) (o : Operand) : Operand :=
  {| constraint := constraint o; value := value o; idx := i;
     olist := olist o; repr := repr o |}.

Definition set_repr (r : option (Z -> string)) (o : Operand) : Operand :=
  {| constraint := constraint o; value := value o; idx := idx o;
     olist := olist o; repr := r |}.

Definition set_constraint (c : string) (o : Operand) : Operand :=
  {| constraint := c; value := value o; idx := idx o;
     olist := olist o; repr := repr o |}.

Definition push_olist (arg : OperandRef) (o : Operand) : Operand :=
  {| constraint := constraint o; value := value o; idx := idx o;
     olist := olist o ++ [arg]; repr := repr o |}.

(** [struct GCNBuilder::Modifier]; [mlist] is the member [list]. *)
Record Modifier : Type := mkModifier {
  mvalue : Value;
  modifier : string;
  arg : string;
  mlist : list ModifierRef
}.

Definition Modifier_default : Modifier :=
  {| mvalue := NullValue; modifier := ""; arg := ""; mlist := [] |}.

(** [std::string to_str() const] *)
Definition to_str (m : Modifier) : string :=
  if isEmpty (arg m) then modifier m else modifier m +:+ ":" +:+ arg m.

(** [struct GCNInstrCommon]: the builder back-pointer is implicit, the
    instruction lives in [instrs] of its builder. *)
Record GCNInstrCommon : Type := mkInstr {
  instrParts : list string
}.

(** [struct GCNInstrExecution]. *)
Record GCNInstrExecution : Type := mkExecution {
  instr : InstrRef;
  argsInOrder : list OperandRef;
  mods : list ModifierRef
}.

(** [struct GCNBuilder]. *)
Record GCNBuilder : Type := mkBuilder {
  argArchive : list Operand;
  modArchive : list Modifier;
  instrs : list GCNInstrCommon;
  executions : list GCNInstrExecution;
  oprCounter : Z
}.

Definition newBuilder : GCNBuilder :=
  {| argArchive := []; modArchive := []; instrs := []; executions := [];
     oprCounter := 0 |}.

Definition with_argArchive (f : list Operand -> list Operand) (b : GCNBuilder) :=
  {| argArchive := f (argArchive b); modArchive := modArchive b;
     instrs := instrs b; executions := executions b;
     oprCounter := oprCounter b |}.

Definition with_modArchive (f : list Modifier -> list Modifier) (b : GCNBuilder) :=
  {| argArchive := argArchive b; modArchive := f (modArchive b);
     instrs := instrs b; executions := executions b;
     oprCounter := oprCounter b |}.

Definition with_instrs (f : list GCNInstrCommon -> list GCNInstrCommon)
    (b : GCNBuilder) :=
  {| argArchive := argArchive b; modArchive := modArchive b;
     instrs := f (instrs b); executions := executions b;
     oprCounter := oprCounter b |}.

Definition with_executions
    (f : list GCNInstrExecution -> list GCNInstrExecution) (b : GCNBuilder) :=
  {| argArchive := argArchive b; modArchive := modArchive b;
     instrs := instrs b; executions := f (executions b);
     oprCounter := oprCounter b |}.

Definition with_oprCounter (c : Z) (b : GCNBuilder) :=
  {| argArchive := argArchive b; modArchive := modArchive b;
     instrs := instrs b; executions := executions b; oprCounter := c |}.

(** Methods of the builder and of the objects it owns. *)
Definition B (A : Type) : Type := M GCNBuilder A.

Open Scope cxx_scope.

(** [argArchive.emplace_back(...); return argArchive.back().get();] *)
Definition emplace_operand (o : Operand) : B OperandRef :=
  b <- get ;;
  modify (with_argArchive (fun l => l ++ [o])) ;;;
  ret (length (argArchive b)).

(** private [Operand *newOperand()] *)
Definition newOperand0 : B OperandRef := emplace_operand Operand_default.

(** [Operand *listAppend(Operand *arg)]: [list.push_back(arg); return this;] *)
Definition listAppend (this arg : OperandRef) : B OperandRef :=
  modify (with_argArchive (alter (push_olist arg) this)) ;;;
  ret this.

(** [Operand *listGet(size_t nth) const] *)
Definition listGet (this : OperandRef) (nth : nat) : B OperandRef :=
  b <- get ;;
  match argArchive b !! this with
  | None => abort NullDeref
  | Some o =>
      assert (Nat.ltb nth (length (olist o))) "nth < list.size()" ;;;
      match olist o !! nth with
      | Some r => ret r
      | None => abort NullDeref
      end
  end.

(** [ConcreteT &o(const std::string &suffix, bool predicate = true)] *)
Definition o (this : InstrRef) (suffix : string) (predicate : bool) : B InstrRef :=
  (if predicate
   then modify (with_instrs
                  (alter (fun i => {| instrParts := instrParts i ++ [suffix] |}) this))
   else ret tt) ;;;
  ret this.

(** [explicit GCNInstrBase(GCNBuilder *builder, const std::string &name)]:
    [o(name)] on the instruction at [this], whose [instrParts] is still
    empty. *)
Definition GCNInstrBase (this : InstrRef) (name : string) : B unit :=
  o this name true ;;; ret tt.

(** [template <typename INSTR> INSTR *create(name)]:
    [instrs.emplace_back(std::make_unique<INSTR>(this, name));
     return instrs.back().get();]  The new instruction is constructed in
    the place it takes in [instrs]. *)
Definition create (name : string) : B InstrRef :=
  b <- get ;;
  modify (with_instrs (fun l => l ++ [ {| instrParts := [] |} ])) ;;;
  GCNInstrBase (length (instrs b)) name ;;;
  ret (length (instrs b)).

(** [enum VectorWidth] *)
Definition Byte : Z := 8.
Definition Short : Z := 16.
Definition Dword : Z := 32.
Definition Qword : Z := 64.

(** [GCNInstr &float_op_type(int width)] *)
Definition float_op_type (this : InstrRef) (width : Z) : B InstrRef :=
  (if width =? Byte then assert (negb (Byte =? width)) "Byte != width"
   else if width =? Short then (o this "f16" true ;;; ret tt)
   else if width =? Dword then (o this "f32" true ;;; ret tt)
   else if width =? Qword then (o this "f64" true ;;; ret tt)
   else ret tt) ;;;
  ret this.

(** [GCNMemInstr &load_type(int width)] *)
Definition load_type (this : InstrRef) (width : Z) : B InstrRef :=
  (if width =? Byte then (o this "ubyte" true ;;; ret tt)
   else if width =? Short then (o this "ushort" true ;;; ret tt)
   else if width =? Dword then (o this "dword" true ;;; ret tt)
   else if width =? Qword then (o this "dwordx2" true ;;; ret tt)
   else ret tt) ;;;
  ret this.

(** [GCNMemInstr &store_type(int width)] *)
Definition store_type (this : InstrRef) (width : Z) : B InstrRef :=
  (if width =? Byte then (o this "byte" true ;;; ret tt)
   else if width =? Short then (o this "short" true ;;; ret tt)
   else if width =? Dword then (o this "dword" true ;;; ret tt)
   else if width =? Qword then (o this "dwordx2" true ;;; ret tt)
   else ret tt) ;;;
  ret this.

(** *** Creation routines whose bodies are not in the header *)

(** Modelled from the spec: the body of
    [newOperand(mlir::Value, StringRef, formatter)], declared in the header
    and defined elsewhere.  "creates and owns a bound Operand" with the
    optional custom renderer; the index stays unassigned ("a position index
    assigned at use time"). *)
Definition newOperand (v : Value) (c : string)
    (formatter : option (Z -> string)) : B OperandRef :=
  emplace_operand (set_repr formatter (Operand_bound v c)).

(** Modelled from the spec: the body of [newOperand(StringRef constraint)].
    "creates a write-only operand with no bound value". *)
Definition newOperandOut (c : string) : B OperandRef :=
  emplace_operand (set_constraint c Operand_default).

(** Modelled from the spec: the body of
    [newConstantOperand(const std::string &)].  "creates an Operand with no
    constraint and a fixed literal rendering". *)
Definition newConstantOperand (v : string) : B OperandRef :=
  emplace_operand (set_repr (Some (fun _ => v)) Operand_default).

(** Modelled from the spec: the body of [newConstantOperand(int)]; the
    literal text of the integer is given by [fmt], the spec fixes no
    format. *)
Definition newConstantOperandInt (fmt : Z -> string) (v : Z) : B OperandRef :=
  newConstantOperand (fmt v).

(** [Operand *newListOperand()] *)
Definition newListOperand : B OperandRef := newOperand0.

(** [Operand *newListOperand(ArrayRef<std::pair<mlir::Value, std::string>>)] *)
Definition newListOperandItems (items : list (Value * string)) : B OperandRef :=
  list <- newOperand0 ;;
  for_each items (fun item =>
    child <- newOperand (fst item) (snd item) None ;;
    listAppend list child ;;;
    ret tt) ;;;
  ret list.

(** [Operand *newListOperand(unsigned count, mlir::Value val,
                             const std::string &constraint)] *)
Definition newListOperandVal (count : nat) (val : Value) (c : string)
    : B OperandRef :=
  list <- newOperand0 ;;
  for_each (seq 0 count) (fun _ =>
    child <- newOperand val c None ;;
    listAppend list child ;;;
    ret tt) ;;;
  ret list.

(** [Operand *newListOperand(unsigned count, const std::string &constraint)] *)
Definition newListOperandOut (count : nat) (c : string) : B OperandRef :=
  list <- newOperand0 ;;
  for_each (seq 0 count) (fun _ =>
    child <- newOperandOut c ;;
    listAppend list child ;;;
    ret tt) ;;;
  ret list.

(** *** Invocation *)

(** Modelled from the spec: the body of [GCNInstrCommon::call], declared in
    the header and defined elsewhere.  "creates exactly one Invocation
    holding that Instruction, a frozen copy of the operand references in
    call order, and a frozen copy of the modifier references". *)
Definition call (this : InstrRef) (oprs : list OperandRef)
    (modifiers : list ModifierRef) : B ExecutionRef :=
  b <- get ;;
  modify (with_executions (fun l =>
    l ++ [ {| instr := this; argsInOrder := oprs; mods := modifiers |} ])) ;;;
  ret (length (executions b)).

(** [operator()(Operand *a, Operand *b) { return call({a, b}, {}); }] and
    its siblings of arity 0 to 7. *)
Definition call0 (this : InstrRef) := call this [] [].
Definition call1 (this : InstrRef) (a : OperandRef) := call this [a] [].
Definition call2 (this : InstrRef) (a b : OperandRef) := call this [a; b] [].
Definition call3 (this : InstrRef) (a b c : OperandRef) :=
  call this [a; b; c] [].
Definition call4 (this : InstrRef) (a b c d : OperandRef) :=
  call this [a; b; c; d] [].
Definition call5 (this : InstrRef) (a b c d e : OperandRef) :=
  call this [a; b; c; d; e] [].
Definition call6 (this : InstrRef) (a b c d e f : OperandRef) :=
  call this [a; b; c; d; e; f] [].
Definition call7 (this : InstrRef) (a b c d e f g : OperandRef) :=
  call this [a; b; c; d; e; f; g] [].

Close Scope cxx_scope.

(** *** Format synthesis *)

(** Modelled from the spec: the expansion step of
    [GCNInstrExecution::getArgList], whose body is not in the header.
    "list Operands expand to their children in child order". *)
Definition expandArg (ops : list Operand) (h : OperandRef) : list OperandRef :=
  match ops !! h with
  | Some o => if isList o then olist o else [h]
  | None => []
  end.

(** Modelled from the spec: [GCNInstrExecution::getArgList], the operand
    references of one invocation in call order, each list Operand replaced
    by its children. *)
Definition getArgList (b : GCNBuilder) (e : GCNInstrExecution)
    : list OperandRef :=
  flat_map (expandArg (argArchive b)) (argsInOrder e).

(** Every operand reference reached by the invocations of the builder, in
    the order in which they are reached. *)
Definition references (b : GCNBuilder) : list OperandRef :=
  flat_map (getArgList b) (executions b).

(** Modelled from the spec: index assignment, whose code is not in the
    header.  "assign each a zero-based position index in first-reference
    order ... the list Operand itself carries no index"; an Operand that
    already has an index keeps it. *)
Definition assignIndex (b : GCNBuilder) (h : OperandRef) : GCNBuilder :=
  match argArchive b !! h with
  | Some o =>
      if isList o then b
      else if idx o =? -1 then
        with_oprCounter (oprCounter b + 1)
          (with_argArchive (fun l => <[h := set_idx (oprCounter b) o]> l) b)
      else b
  | None => b
  end.

(** Modelled from the spec: the walk over "all Operands referenced
    (directly or via list expansion) by all Invocations created in a
    Store", in the order of the references. *)
Definition assignIndices (b : GCNBuilder) : GCNBuilder :=
  fold_left assignIndex (references b) b.

(** The Operand that carries index [i], if any. *)
Definition operandAt (ops : list Operand) (i : Z) : option OperandRef :=
  fst <$> list_find (fun o => idx o = i) ops.

(** Modelled from the spec: the body of [GCNBuilder::getAllArgs], declared
    in the header and defined elsewhere: the indexed Operands "in index
    order", after index assignment. *)
Definition getAllArgs (b : GCNBuilder) : list OperandRef :=
  let b' := assignIndices b in
  omap (fun i => operandAt (argArchive b') (Z.of_nat i))
       (seq 0 (Z.to_nat (oprCounter b'))).

Definition constraintOf (ops : list Operand) (h : OperandRef) : string :=
  match ops !! h with
  | Some o => constraint o
  | None => ""
  end.

(** Modelled from the spec: the body of [GCNBuilder::getConstraints].  "the
    comma-joined concatenation, in index order, of each indexed Operand's
    constraint string". *)
Definition getConstraints (b : GCNBuilder) : string :=
  String.concat "," (map (constraintOf (argArchive b)) (getAllArgs b)).

(** Separators of the rendered text, which the spec leaves to the vendor
    syntax and to the caller. *)
Record Syntax : Type := mkSyntax {
  partDelim : string;
  argSep : string;
  modSep : string;
  stmtSep : string
}.

(** Modelled from the spec: the body of [Operand::dump].  An Operand with a
    renderer renders to its result at the assigned index, a list Operand to
    its children's renderings joined by the separator, any other Operand to
    [%<idx>].  [depth] bounds the nesting of lists. *)
Fixpoint dumpOperand (depth : nat) (sx : Syntax) (ops : list Operand)
    (h : OperandRef) : string :=
  match ops !! h with
  | None => ""
  | Some o =>
      match repr o with
      | Some f => f (idx o)
      | None =>
          if isList o then
            match depth with
            | O => ""
            | S d =>
                String.concat (argSep sx) (map (dumpOperand d sx ops) (olist o))
            end
          else "%" +:+ show_int (idx o)
      end
  end.

(** Modelled from the spec: the body of [GCNInstrExecution::dump].
    "mnemonic (joined suffix tokens) + space-separated rendered operands,
    optionally with a trailing colon-joined modifier list". *)
Definition dumpExecution (sx : Syntax) (b : GCNBuilder)
    (e : GCNInstrExecution) : string :=
  let ops := argArchive b in
  let instrRepr :=
    match instrs b !! instr e with
    | Some i => String.concat (partDelim sx) (instrParts i)
    | None => ""
    end in
  let argsRepr :=
    String.concat (argSep sx)
      (map (dumpOperand (length ops) sx ops) (argsInOrder e)) in
  let modsRepr :=
    String.concat (modSep sx)
      (omap (fun m => to_str <$> modArchive b !! m) (mods e)) in
  instrRepr +:+ " " +:+ argsRepr +:+
  (if isEmpty modsRepr then "" else " " +:+ modsRepr).

(** Modelled from the spec: the body of [GCNBuilder::dump].  "the full
    rendered text for every Invocation ..., joined by statement
    separators", after index assignment. *)
Definition dump (sx : Syntax) (b : GCNBuilder) : string :=
  let b' := assignIndices b in
  String.concat (stmtSep sx) (map (dumpExecution sx b') (executions b')).

(** *** Programs over one builder *)

(** The steps a client takes on one builder: the creation routines,
    [listAppend], and invocations. *)
Inductive Step : Type :=
| NewOperand (v : Value) (c : string) (formatter : option (Z -> string))
| NewOperandOut (c : string)
| NewConstantOperand (v : string)
| NewListOperand
| NewListOperandItems (items : list (Value * string))
| NewListOperandVal (count : nat) (v : Value) (c : string)
| NewListOperandOut (count : nat) (c : string)
| ListAppend (list arg : OperandRef)
| Create (name : string)
| Call (i : InstrRef) (oprs : list OperandRef) (modifiers : list ModifierRef).

Open Scope cxx_scope.

Definition step (s : Step) : B unit :=
  match s with
  | NewOperand v c f => newOperand v c f ;;; ret tt
  | NewOperandOut c => newOperandOut c ;;; ret tt
  | NewConstantOperand v => newConstantOperand v ;;; ret tt
  | NewListOperand => newListOperand ;;; ret tt
  | NewListOperandItems items => newListOperandItems items ;;; ret tt
  | NewListOperandVal n v c => newListOperandVal n v c ;;; ret tt
  | NewListOperandOut n c => newListOperandOut n c ;;; ret tt
  | ListAppend l a => listAppend l a ;;; ret tt
  | Create name => create name ;;; ret tt
  | Call i oprs ms => call i oprs ms ;;; ret tt
  end.

Definition run (p : list Step) : B unit := for_each p step.

Close Scope cxx_scope.

(** The Operands that receive an index, each once, in first-reference
    order. *)
Definition indexable (ops : list Operand) (h : OperandRef) : bool :=
  match ops !! h with
  | Some o => negb (isList o)
  | None => false
  end.

Fixpoint distinct (l : list OperandRef) : list OperandRef :=
  match l with
  | [] => []
  | x :: l' => x :: filter (fun y => y <> x) (distinct l')
  end.

Definition firstReferences (b : GCNBuilder) : list OperandRef :=
  distinct (filter (fun h => indexable (argArchive b) h = true) (references b)).

(** The builder in which instruction [this] has the suffix tokens [parts]
    and nothing else differs from [b]. *)
Definition withParts (this : InstrRef) (parts : list string) (b : GCNBuilder)
    : GCNBuilder :=
  with_instrs (fun l => <[this := {| instrParts := parts |}]> l) b.



(** A builder that owns one instruction, "v_add". *)
Definition oneInstr : GCNBuilder :=
  with_instrs (fun _ => [ {| instrParts := ["v_add"] |} ]) newBuilder.

(** The Operand a creation routine returns, as it is in the builder the
    routine leaves. *)
Definition created (r : B OperandRef) (b : GCNBuilder) : option Operand :=
  match r b with
  | Returned (h, b') => argArchive b' !! h
  | _ => None
  end.

(** "Every ... constant Operand fails isList()". *)
Definition constants_fail_isList : Prop :=
  forall (v : string) (b : GCNBuilder) (o : Operand),
    created (newConstantOperand v) b = Some o -> isList o = false.

(** What one round of the loops in [newListOperand(...)] does: the child is
    archived and its reference is pushed onto the list Operand. *)
Definition appendChild (list : OperandRef) (child : Operand) (b : GCNBuilder)
    : GCNBuilder :=
  with_argArchive (alter (push_olist (length (argArchive b))) list)
    (with_argArchive (fun l => l ++ [child]) b).

(** An Operand that carries neither a bound value nor a constraint. *)
Definition bare (o : Operand) : Prop :=
  value o = NullValue /\ constraint o = "".

(** A builder in which no Operand has an index yet. *)
Definition fresh (b : GCNBuilder) : Prop :=
  oprCounter b = 0 /\ Forall (fun o => idx o = -1) (argArchive b).

(** The place of the first occurrence of [h] in [l]. *)
Fixpoint positionOf (h : OperandRef) (l : list OperandRef) : option nat :=
  match l with
  | [] => None
  | x :: l' => if decide (x = h) then Some 0%nat else S <$> positionOf h l'
  end.

(** The index of [h] once the Operands [seen] have been indexed in this
    order: its place in [seen], or -1. *)
Definition indexOf (seen : list OperandRef) (h : OperandRef) : Z :=
  match positionOf h seen with
  | Some k => Z.of_nat k
  | None => -1
  end.

(** The builder [b] with exactly the Operands [seen] indexed, in this
    order. *)
Definition stamp (seen : list OperandRef) (b : GCNBuilder) : GCNBuilder :=
  with_oprCounter (Z.of_nat (length seen))
    (with_argArchive (imap (fun h o => set_idx (indexOf seen h) o)) b).

(** One more reference: it joins [seen] when it is to an Operand that takes
    an index and has none yet. *)
Definition addRef (ops : list Operand) (seen : list OperandRef)
    (h : OperandRef) : list OperandRef :=
  if indexable ops h && bool_decide (h ∉ seen) then seen ++ [h] else seen.

(** Two bound Operands, a list of three outputs and a constant, referenced
    by two invocations; the second repeats some references. *)
Definition sampleProgram : list Step :=
  [ NewOperand (SSAValue 1) "=r" None;
    NewOperand (SSAValue 2) "r" None;
    NewListOperandOut 3 "v";
    NewConstantOperand "0x10";
    Create "v_mov_b32";
    Call 0%nat [1%nat; 2%nat; 6%nat] [];
    Call 0%nat [4%nat; 1%nat; 0%nat] [] ].

(** Scenario 1 of the spec: two bound Operands and one invocation of a
    two-operand "v_mov_b32". *)
Definition scenario1 : list Step :=
  [ NewOperand (SSAValue 1) "=r" None;
    NewOperand (SSAValue 2) "r" None;
    Create "v_mov_b32";
    Call 0%nat [0%nat; 1%nat] [] ].

(** Scenario 2 of the spec: a list Operand built from three constraints
    "r", passed to one invocation. *)
Definition scenario2 : list Step :=
  [ NewListOperandOut 3 "r";
    Create "v_pk_add";
    Call 0%nat [0%nat] [] ].

(** The builder a program leaves, from a new builder. *)
Definition built (p : list Step) : option GCNBuilder :=
  match run p newBuilder with
  | Returned (_, b) => Some b
  | _ => None
  end.

(** *** Modifiers and chained calls *)

(** [Modifier(Value value, StringRef arg) : value(value), arg(arg) {}]: the
    member [modifier] keeps its default, the empty string. *)
Definition Modifier_bound (v : Value) (a : string) : Modifier :=
  {| mvalue := v; modifier := ""; arg := a; mlist := [] |}.

(** [bool Modifier::isList() const { return !value && modifier.empty(); }] *)
Definition Modifier_isList (m : Modifier) : bool :=
  negb (hasValue (mvalue m)) && isEmpty (modifier m).

Definition push_mlist (a : ModifierRef) (m : Modifier) : Modifier :=
  {| mvalue := mvalue m; modifier := modifier m; arg := arg m;
     mlist := mlist m ++ [a] |}.

Open Scope cxx_scope.

(** private [Modifier *newModifier()] *)
Definition newModifier0 : B ModifierRef :=
  b <- get ;;
  modify (with_modArchive (fun l => l ++ [Modifier_default])) ;;;
  ret (length (modArchive b)).

(** [Modifier *listAppend(Modifier *arg)] *)
Definition Modifier_listAppend (this a : ModifierRef) : B ModifierRef :=
  modify (with_modArchive (alter (push_mlist a) this)) ;;;
  ret this.

(** [Modifier *listGet(size_t index) const] *)
Definition Modifier_listGet (this : ModifierRef) (index : nat) : B ModifierRef :=
  b <- get ;;
  match modArchive b !! this with
  | None => abort NullDeref
  | Some m =>
      assert (Nat.ltb index (length (mlist m))) "index < list.size()" ;;;
      match mlist m !! index with
      | Some r => ret r
      | None => abort NullDeref
      end
  end.

(** [list->listAppend(a1)->listAppend(a2)...]: each call is made on the
    pointer the previous one returned. *)
Fixpoint listAppend_chain (this : OperandRef) (args : list OperandRef)
    : B OperandRef :=
  match args with
  | [] => ret this
  | a :: rest => this' <- listAppend this a ;; listAppend_chain this' rest
  end.

Fixpoint Modifier_listAppend_chain (this : ModifierRef)
    (args : list ModifierRef) : B ModifierRef :=
  match args with
  | [] => ret this
  | a :: rest =>
      this' <- Modifier_listAppend this a ;; Modifier_listAppend_chain this' rest
  end.

Close Scope cxx_scope.

(** A builder that owns one empty list Operand and one empty list
    Modifier. *)
Definition oneList : GCNBuilder :=
  with_modArchive (fun _ => [Modifier_default])
    (with_argArchive (fun _ => [Operand_default]) newBuilder).

(** A builder that owns the instructions "v_add" and "global_load". *)
Definition twoInstrs : GCNBuilder :=
  with_instrs (fun _ => [ {| instrParts := ["v_add"] |};
                          {| instrParts := ["global_load"] |} ]) newBuilder.

(** [b'] is [b] with one more list Operand, archived first, followed by
    its [children] in order, which the list names by their positions. *)
Definition listOfChildren (b b' : GCNBuilder) (children : list Operand) : Prop :=
  exists L,
    argArchive b' = argArchive b ++ L :: children
    /\ olist L = seq (S (length (argArchive b))) (length children)
    /\ isList L = true
    /\ modArchive b' = modArchive b /\ instrs b' = instrs b
    /\ executions b' = executions b /\ oprCounter b' = oprCounter b.

End GCN.

(** ** lib/ir/Ops.cpp *)

Module Ops.

(** The part of the MLIR type system the two builders look at. *)
Inductive MType : Type :=
| IntegerType (width : N)
| FloatType (width : N)
| IndexType
| PointerType (pointee : MType)
| RankedTensorType (shape : list Z) (elementType : MType).

(** [builder.getI1Type()] *)
Definition getI1Type : MType := IntegerType 1.

(** Attributes: scalar constants and dense element tables; [NullAttr] is
    the null [Attribute]. *)
#[warnings="-register-all"]
Inductive Attribute : Type :=
| NullAttr
| BoolAttr (b : bool)
| IntegerAttr (type : MType) (v : Z)
| ZeroFloatAttr (type : MType)
| DenseElementsAttr (type : MType) (values : list Attribute).

(** [Builder::getZeroAttr]: the zero of a float, index or integer type,
    the null attribute for a type that has none. *)
Definition getZeroAttr (type : MType) : Attribute :=
  match type with
  | FloatType _ => ZeroFloatAttr type
  | IndexType => IntegerAttr type 0
  | IntegerType _ => IntegerAttr type 0
  | _ => NullAttr
  end.

(** [ShapedType::getNumElements] of a static shape. *)
Definition getNumElements (shape : list Z) : nat :=
  Z.to_nat (fold_right Z.mul 1 shape).

(** The elements a dense attribute stands for: a single stored value is a
    splat over the whole shape. *)
Definition getValues (a : Attribute) : list Attribute :=
  match a with
  | DenseElementsAttr (RankedTensorType shape _) [v] =>
      repeat v (getNumElements shape)
  | DenseElementsAttr _ vs => vs
  | _ => []
  end.

Definition Location := nat.

(** Where an [mlir::Value] comes from. *)
Inductive ValueDef : Type :=
| BlockArgument (n : nat)
| OpResult (op : nat).

(** [mlir::Value]: [getType()], [getLoc()] and its definition. *)
Record Value : Type := mkValue {
  vType : MType;
  vLoc : Location;
  vDef : ValueDef
}.

(** An [arith::ConstantOp] in the block the builder inserts into. *)
Record ConstantOp : Type := mkConstantOp {
  cLoc : Location;
  cType : MType;
  cValue : Attribute
}.

(** [mlir::OpBuilder]: the operations inserted so far, in order. *)
Record OpBuilder : Type := mkOpBuilder {
  inserted : list ConstantOp
}.

(** [mlir::OperationState]. *)
Record OperationState : Type := mkOperationState {
  operands : list Value;
  types : list MType
}.

(** Both builders work on the [OpBuilder] and the [OperationState] they
    are handed by reference. *)
Definition Build (A : Type) : Type := M (OpBuilder * OperationState) A.

Open Scope cxx_scope.

(** [builder.create<arith::ConstantOp>(loc, type, value)] *)
Definition create_ConstantOp (loc : Location) (type : MType)
    (v : Attribute) : Build Value :=
  s <- get ;;
  put ({| inserted := inserted (fst s) ++
                      [ {| cLoc := loc; cType := type; cValue := v |} ] |},
       snd s) ;;;
  ret {| vType := type; vLoc := loc;
         vDef := OpResult (length (inserted (fst s))) |}.

(** [state.addOperands(v)] *)
Definition addOperands (v : Value) : Build unit :=
  modify (fun s => (fst s,
    {| operands := operands (snd s) ++ [v]; types := types (snd s) |})).

(** [state.addTypes({t})] *)
Definition addTypes (ts : list MType) : Build unit :=
  modify (fun s => (fst s,
    {| operands := operands (snd s); types := types (snd s) ++ ts |})).

(** [t.dyn_cast<TensorType>()]; [None] is the null type. *)
Definition dyn_cast_TensorType (t : MType) : option (list Z * MType) :=
  match t with
  | RankedTensorType shape e => Some (shape, e)
  | _ => None
  end.

(** [t.dyn_cast<PointerType>()]; [None] is the null type. *)
Definition dyn_cast_PointerType (t : MType) : option MType :=
  match t with
  | PointerType p => Some p
  | _ => None
  end.

(** A member call on the result of a [dyn_cast]. *)
Definition deref {A} (x : option A) : Build A :=
  match x with
  | Some a => ret a
  | None => abort NullDeref
  end.

(** [DenseIntElementsAttr::get(type, true)]: one value for the whole
    table. *)
Definition DenseIntElementsAttr_get (type : MType) (b : bool) : Attribute :=
  DenseElementsAttr type [BoolAttr b].

(** [DenseElementsAttr::get(type, attr)]: one value for the whole table;
    the value must not be the null attribute. *)
Definition DenseElementsAttr_get (type : MType) (a : Attribute)
    : Build Attribute :=
  match a with
  | NullAttr => abort NullDeref
  | _ => ret (DenseElementsAttr type [a])
  end.

(** [void StoreOp::build(OpBuilder &, OperationState &, Value ptr,
                         Value value)] *)
Definition StoreOp_build (ptr value : Value) : Build unit :=
  let ptrType := dyn_cast_TensorType (vType ptr) in
  ptrTy <- deref ptrType ;;
  let shape := fst ptrTy in
  mask <- create_ConstantOp (vLoc ptr)
            (RankedTensorType shape getI1Type)
            (DenseIntElementsAttr_get
               (RankedTensorType shape getI1Type) true) ;;
  addOperands ptr ;;;
  addOperands value ;;;
  addOperands mask.

(** [void LoadOp::build(OpBuilder &, OperationState &, Value ptr)] *)
Definition LoadOp_build (ptr : Value) : Build unit :=
  let ptrType := dyn_cast_TensorType (vType ptr) in
  ptrTy <- deref ptrType ;;
  elementType <- deref (dyn_cast_PointerType (snd ptrTy)) ;;
  let shape := fst ptrTy in
  mask <- create_ConstantOp (vLoc ptr)
            (RankedTensorType shape getI1Type)
            (DenseIntElementsAttr_get
               (RankedTensorType shape getI1Type) true) ;;
  let resultType := RankedTensorType shape elementType in
  zeros <- DenseElementsAttr_get resultType (getZeroAttr elementType) ;;
  other <- create_ConstantOp (vLoc ptr) resultType zeros ;;
  addOperands ptr ;;;
  addOperands mask ;;;
  addOperands other ;;;
  addTypes [resultType].

Close Scope cxx_scope.

(** The constant operation that defines a value, if it was created by the
    builder. *)
Definition definingOp (b : OpBuilder) (v : Value) : option ConstantOp :=
  match vDef v with
  | OpResult n => inserted b !! n
  | BlockArgument _ => None
  end.

(** [v] is the result of a constant operation of [b] that is a table of
    type [tensor<shape x elt>] with every element equal to [e]. *)
Definition constantTensor (b : OpBuilder) (v : Value) (shape : list Z)
    (elt : MType) (e : Attribute) : Prop :=
  vType v = RankedTensorType shape elt
  /\ exists op, definingOp b v = Some op
       /\ cType op = RankedTensorType shape elt
       /\ getValues (cValue op) = repeat e (getNumElements shape).

(** A pointer tensor [tensor<2x3 x ptr<f32>>] and a value to store. *)
Definition samplePtr : Value :=
  {| vType := RankedTensorType [2; 3] (PointerType (FloatType 32));
     vLoc := 7%nat; vDef := BlockArgument 0 |}.

Definition sampleValue : Value :=
  {| vType := RankedTensorType [2; 3] (FloatType 32);
     vLoc := 8%nat; vDef := BlockArgument 1 |}.

(** A pointer that is no tensor, [ptr<f32>]. *)
Definition scalarPtr : Value :=
  {| vType := PointerType (FloatType 32); vLoc := 9%nat;
     vDef := BlockArgument 2 |}.

(** A tensor of pointers to pointers, [tensor<2x3 x ptr<ptr<f32>>>]. *)
Definition ptrToPtr : Value :=
  {| vType := RankedTensorType [2; 3] (PointerType (PointerType (FloatType 32)));
     vLoc := 10%nat; vDef := BlockArgument 3 |}.

End Ops.

(** ** lib/Target/HSACO/HSACOTranslation.cpp *)

Module HSACO.

(** *** LLVM objects the translation touches *)

Inductive FnAttr : Type :=
| AlwaysInline
| OtherAttr (name : string).

Record Function : Type := mkFunction {
  fnName : string;
  fnAttrs : list FnAttr
}.

(** [f.addFnAttr(a)]: attributes form a set. *)
Definition hasFnAttr (a : FnAttr) (f : Function) : bool :=
  existsb (fun x =>
    match x, a with
    | AlwaysInline, AlwaysInline => true
    | OtherAttr n, OtherAttr n' => bool_decide (n = n')
    | _, _ => false
    end) (fnAttrs f).

Definition addFnAttr (a : FnAttr) (f : Function) : Function :=
  if hasFnAttr a f then f
  else {| fnName := fnName f; fnAttrs := fnAttrs f ++ [a] |}.

Inductive FPOpFusionMode : Type := FPOpFusion_Fast | FPOpFusion_Standard | FPOpFusion_Strict.
Inductive RelocModel : Type := Reloc_Static | Reloc_PIC.
Inductive CodeGenOptLevel : Type :=
  CodeGenOpt_None | CodeGenOpt_Less | CodeGenOpt_Default | CodeGenOpt_Aggressive.
Inductive CodeGenFileType : Type := CGFT_AssemblyFile | CGFT_ObjectFile.

Record TargetOptions : Type := mkTargetOptions {
  AllowFPOpFusion : FPOpFusionMode;
  UnsafeFPMath : bool;
  NoInfsFPMath : bool;
  NoNaNsFPMath : bool
}.

(** [std::error_code]: category name and value, printed as [name:value]. *)
Record error_code : Type := mkErrorCode {
  ecCategory : string;
  ecValue : Z
}.

Definition show_error_code (ec : error_code) : string :=
  ecCategory ec +:+ ":" +:+ show_int (ecValue ec).

(** Files by path; the first binding of a path is the current one. *)
Definition FileSystem := list (string * string).

Definition readFile (fs : FileSystem) (path : string) : option string :=
  snd <$> find (fun e => bool_decide (fst e = path)) fs.

Definition writeFile (path content : string) (fs : FileSystem) : FileSystem :=
  (path, content) :: fs.

(** What the verifier pass finds in a module: nothing; a defect inside the
    body of a function, found when the pass runs on that function; or a
    defect outside the function bodies, found when the pass finishes. *)
Inductive Verdict : Type :=
| Verified
| BrokenFunction
| BrokenModule.

Section Pipeline.

(** The body of a module: what code generation lowers. *)
Variable IR : Type.

(** [llvm::Module]. *)
Record Module : Type := mkModule {
  moduleIdentifier : string;
  targetTriple : string;
  dataLayout : string;
  functions : list Function;
  body : IR
}.

(** [llvm::Target], an entry of the target registry. *)
Variable Target : Type.

(** [llvm::TargetMachine], as [Target::createTargetMachine] builds it. *)
Record TargetMachine : Type := mkTargetMachine {
  tmTarget : Target;
  tmTriple : string;
  tmCPU : string;
  tmFeatures : string;
  tmOptions : TargetOptions;
  tmReloc : RelocModel;
  tmOptLevel : CodeGenOptLevel
}.

(** [llvm::Module *]: the position of the module among the live modules. *)
Abbreviation ModuleRef := nat (only parsing).

(** The process: live modules, the backends registered so far, standard
    output, the file system, and how often [std::tmpnam] was called. *)
Record World : Type := mkWorld {
  heap : list Module;
  registry : list string;
  stdout : string;
  files : FileSystem;
  tmpnamCalls : nat
}.

(** *** What LLVM and the operating system do *)

(** [llvm::createVerifierPass()] run over the module. *)
Variable verify : Module -> Verdict.

(** Does the verifier pass find the module broken? *)
Definition verifierFindsBroken (m : Module) : bool :=
  match verify m with
  | Verified => false
  | BrokenFunction | BrokenModule => true
  end.

(** [llvm::TargetRegistry::lookupTarget(triple, error)] over the registered
    backends: the target, or the error text it leaves in [error] next to a
    null result. *)
Variable lookupTarget : list string -> string -> Target + string.

(** [machine->createDataLayout()], as the string that describes it. *)
Variable createDataLayout : TargetMachine -> string.

(** [machine->addPassesToEmitFile(pass, stream, nullptr, type);
    pass.run] on the module: lowers the module in place and writes the emitted
    text or object to the stream. *)
Variable emitFile : TargetMachine -> CodeGenFileType -> Module -> Module * string.

(** [std::tmpnam(nullptr)]: the name handed out by the n-th call. *)
Variable tmpnam : nat -> string.

(** Opening [path] for writing: the error, if the file cannot be created. *)
Variable openError : FileSystem -> string -> option error_code.

(** The message of the error a write through a descriptor that is not
    open fails with ([EBADF]). *)
Variable badDescriptorMessage : string.

(** [llvm::sys::ExecuteAndWait(program, args, ..., &error_message)]: exit
    code, captured error message, and the file system it leaves. *)
Variable ExecuteAndWait :
  string -> list string -> FileSystem -> Z * string * FileSystem.

(** [::triton::tools::getBoolEnv(name)] *)
Variable getBoolEnv : string -> bool.

Definition P (A : Type) : Type := M World A.

Open Scope cxx_scope.

Definition with_heap (f : list Module -> list Module) (w : World) : World :=
  {| heap := f (heap w); registry := registry w; stdout := stdout w;
     files := files w; tmpnamCalls := tmpnamCalls w |}.

Definition with_registry (f : list string -> list string) (w : World) : World :=
  {| heap := heap w; registry := f (registry w); stdout := stdout w;
     files := files w; tmpnamCalls := tmpnamCalls w |}.

Definition with_files (f : FileSystem -> FileSystem) (w : World) : World :=
  {| heap := heap w; registry := registry w; stdout := stdout w;
     files := f (files w); tmpnamCalls := tmpnamCalls w |}.

(** [std::cout << text] *)
Definition cout (text : string) : P unit :=
  modify (fun w =>
    {| heap := heap w; registry := registry w; stdout := stdout w +:+ text;
       files := files w; tmpnamCalls := tmpnamCalls w |}).

(** Reading through a module pointer. *)
Definition load (module : ModuleRef) : P Module :=
  w <- get ;;
  match heap w !! module with
  | Some m => ret m
  | None => abort NullDeref
  end.

Definition store (module : ModuleRef) (m : Module) : P unit :=
  modify (with_heap (fun h => <[module := m]> h)).

(** [llvm::CloneModule]: a new module with the same contents. *)
Definition CloneModule (module : ModuleRef) : P ModuleRef :=
  m <- load module ;;
  w <- get ;;
  modify (with_heap (fun h => h ++ [m])) ;;;
  ret (length (heap w)).

Definition next_tmpnam : P string :=
  w <- get ;;
  put {| heap := heap w; registry := registry w; stdout := stdout w;
         files := files w; tmpnamCalls := S (tmpnamCalls w) |} ;;;
  ret (tmpnam (tmpnamCalls w)).

Definition setTargetTriple (t : string) (m : Module) : Module :=
  {| moduleIdentifier := moduleIdentifier m; targetTriple := t;
     dataLayout := dataLayout m; functions := functions m; body := body m |}.

Definition setDataLayout (d : string) (m : Module) : Module :=
  {| moduleIdentifier := moduleIdentifier m; targetTriple := targetTriple m;
     dataLayout := d; functions := functions m; body := body m |}.

Definition mapFunctions (f : Function -> Function) (m : Module) : Module :=
  {| moduleIdentifier := moduleIdentifier m; targetTriple := targetTriple m;
     dataLayout := dataLayout m; functions := map f (functions m);
     body := body m |}.

(** [void init_llvm()]: the five [LLVMInitializeAMDGPU...] calls. *)
Definition init_llvm : P unit :=
  modify (with_registry (fun r =>
    r ++ ["AMDGPUTarget"; "AMDGPUTargetInfo"; "AMDGPUTargetMC";
          "AMDGPUAsmParser"; "AMDGPUAsmPrinter"])).

(** [std::unique_ptr<llvm::TargetMachine> initialize_module(llvm::Module *,
      const std::string &triple, const std::string &proc,
      const std::string &features)].
    The verifier pass is created with its default, fatal errors: it ends
    the process with [report_fatal_error], on the first function whose
    body is broken, or when it finishes over a module that is broken
    elsewhere.  The result of [lookupTarget] is used unchecked: on a failed
    lookup [target] is null, the text in [error] is never read, and
    [target->createTargetMachine] is a call through the null pointer. *)
Definition initialize_module (module : ModuleRef) (triple proc features : string)
    : P TargetMachine :=
  m <- load module ;;
  match verify m with
  | Verified => ret tt
  | BrokenFunction =>
      abort (FatalError "Broken function found, compilation aborted!")
  | BrokenModule =>
      abort (FatalError "Broken module found, compilation aborted!")
  end ;;;
  store module (setTargetTriple triple m) ;;;
  m <- load module ;;
  w <- get ;;
  match lookupTarget (registry w) (targetTriple m) with
  | inr error => abort NullDeref
  | inl target =>
      let opt := {| AllowFPOpFusion := FPOpFusion_Fast; UnsafeFPMath := false;
                    NoInfsFPMath := false; NoNaNsFPMath := true |} in
      let machine :=
        {| tmTarget := target; tmTriple := targetTriple m; tmCPU := proc;
           tmFeatures := features; tmOptions := opt; tmReloc := Reloc_PIC;
           tmOptLevel := CodeGenOpt_Aggressive |} in
      store module (setDataLayout (createDataLayout machine) m) ;;;
      m <- load module ;;
      store module (mapFunctions (addFnAttr AlwaysInline) m) ;;;
      ret machine
  end.

(** [std::string generate_amdgcn_assembly(llvm::Module *, triple, proc,
                                          features)] *)
Definition generate_amdgcn_assembly (module : ModuleRef)
    (triple proc features : string) : P string :=
  machine <- initialize_module module triple proc features ;;
  m <- load module ;;
  let emitted := emitFile machine CGFT_AssemblyFile m in
  store module (fst emitted) ;;;
  let amdgcn := snd emitted in
  (if getBoolEnv "AMDGCN_ENABLE_DUMP"
   then cout ("// -----// AMDGCN Dump //----- //" +:+ endl +:+ amdgcn +:+ endl)
   else ret tt) ;;;
  ret amdgcn.

Definition ld_lld : string := "/opt/rocm/llvm/bin/ld.lld".

(** [std::string generate_hsaco(llvm::Module *, triple, proc, features)].
    The object stream [isabin_fs] writes to the file when it could be
    opened.  When it could not, the function goes on with a stream that has
    no descriptor: every write to it fails and sets the error flag of the
    stream ([has_error]; LLVM built without assertions), and when the
    function leaves, after the linker has run and has been reported, the
    destructor of the stream finds the flag and ends the process with
    [report_fatal_error]. *)
Definition generate_hsaco (module : ModuleRef) (triple proc features : string)
    : P string :=
  machine <- initialize_module module triple proc features ;;
  tmp <- next_tmpnam ;;
  m <- load module ;;
  let kernel_name := tmp +:+ "_" +:+ moduleIdentifier m in
  let isabin_path := kernel_name +:+ ".o" in
  w <- get ;;
  let ec := openError (files w) isabin_path in
  match ec with
  | Some e =>
      cout (isabin_path +:+ " was not created. error code: " +:+
            show_error_code e +:+ endl)
  | None => modify (with_files (writeFile isabin_path ""))
  end ;;;
  let emitted := emitFile machine CGFT_ObjectFile m in
  store module (fst emitted) ;;;
  has_error <-
    match ec with
    | Some _ => ret (negb (bool_decide (snd emitted = "")))
    | None =>
        modify (with_files (writeFile isabin_path (snd emitted))) ;;;
        ret false
    end ;;
  let hsaco_path := kernel_name +:+ ".hsaco" in
  w <- get ;;
  let linked :=
    ExecuteAndWait ld_lld
      [ld_lld; "-flavor"; "gnu"; "-shared"; "-o"; hsaco_path; isabin_path]
      (files w) in
  let lld_result := fst (fst linked) in
  let error_message := snd (fst linked) in
  modify (with_files (fun _ => snd linked)) ;;;
  (if negb (lld_result =? 0)
   then cout ("ld.lld execute fail: " +:+ endl) ;;;
        cout (error_message +:+ endl) ;;;
        cout (show_int lld_result +:+ endl)
   else ret tt) ;;;
  (if has_error
   then abort (FatalError ("IO failure on output stream: " +:+
                           badDescriptorMessage))
   else ret tt) ;;;
  ret hsaco_path.

(** [std::tuple<std::string, std::string>
     llir_to_amdgcn_and_hsaco(llvm::Module *module, std::string cc)] *)
Definition llir_to_amdgcn_and_hsaco (module : ModuleRef) (cc : string)
    : P (string * string) :=
  let triple := "amdgcn-amd-amdhsa" in
  let proc := cc in
  let features := "+sramecc,-xnack" in
  init_llvm ;;;
  module_obj <- CloneModule module ;;
  amdgcn <- generate_amdgcn_assembly module triple proc features ;;
  hsaco_path <- generate_hsaco module_obj triple proc features ;;
  ret (amdgcn, hsaco_path).

(** [triton::translateLLVMIRToHSACO(llvm::Module &module, std::string cc)] *)
Definition translateLLVMIRToHSACO (module : ModuleRef) (cc : string)
    : P (string * string) :=
  hsacoCode <- llir_to_amdgcn_and_hsaco module cc ;;
  ret hsacoCode.

Close Scope cxx_scope.

(** The module as [initialize_module] leaves it. *)
Definition configured (machine : TargetMachine) (triple : string) (m : Module)
    : Module :=
  mapFunctions (addFnAttr AlwaysInline)
    (setDataLayout (createDataLayout machine) (setTargetTriple triple m)).

(** The target machine [initialize_module] builds from a resolved target. *)
Definition machineFor (target : Target) (triple proc features : string)
    : TargetMachine :=
  {| tmTarget := target; tmTriple := triple; tmCPU := proc;
     tmFeatures := features;
     tmOptions := {| AllowFPOpFusion := FPOpFusion_Fast; UnsafeFPMath := false;
                     NoInfsFPMath := false; NoNaNsFPMath := true |};
     tmReloc := Reloc_PIC; tmOptLevel := CodeGenOpt_Aggressive |}.

(** Standard output and file system at the moment [generate_hsaco] starts
    the linker: the object file is there when it could be opened, the
    complaint is on standard output when it could not. *)
Definition outputBeforeLink (w : World) (isabin_path object : string)
    : string * FileSystem :=
  match openError (files w) isabin_path with
  | Some e =>
      (stdout w +:+ (isabin_path +:+ " was not created. error code: " +:+
                     show_error_code e +:+ endl),
       files w)
  | None =>
      (stdout w, writeFile isabin_path object (writeFile isabin_path "" (files w)))
  end.

(** What [generate_hsaco] prints for a linker that exits with [code]. *)
Definition linkerReport (code : Z) (error_message : string) : string :=
  "ld.lld execute fail: " +:+ endl +:+ (error_message +:+ endl) +:+
  (show_int code +:+ endl).

(** The argument vector [generate_hsaco] passes to the linker. *)
Definition linkerArgs (hsaco_path isabin_path : string) : list string :=
  [ld_lld; "-flavor"; "gnu"; "-shared"; "-o"; hsaco_path; isabin_path].

End Pipeline.

Arguments moduleIdentifier {IR} _.
Arguments targetTriple {IR} _.
Arguments dataLayout {IR} _.
Arguments functions {IR} _.
Arguments body {IR} _.
Arguments tmTarget {Target} _.
Arguments tmTriple {Target} _.
Arguments tmCPU {Target} _.
Arguments tmFeatures {Target} _.
Arguments tmOptions {Target} _.
Arguments tmReloc {Target} _.
Arguments tmOptLevel {Target} _.
Arguments heap {IR} _.
Arguments registry {IR} _.
Arguments stdout {IR} _.
Arguments files {IR} _.
Arguments tmpnamCalls {IR} _.
Arguments with_heap {IR} f w.
Arguments with_registry {IR} f w.
Arguments with_files {IR} f w.
Arguments setTargetTriple {IR} t m.
Arguments setDataLayout {IR} d m.
Arguments mapFunctions {IR} f m.
Arguments machineFor {Target} target triple proc features.
Arguments outputBeforeLink {IR} openError w isabin_path object.

(** *** A process for examples *)

(** A registry in which only the AMDGPU backends resolve a triple, and only
    once they are registered. *)
Definition sampleLookup (reg : list string) (triple : string) : string + string :=
  if String.prefix "amdgcn" triple && bool_decide ("AMDGPUTargetInfo" ∈ reg)
  then inl "AMDGPU GCN"
  else inr ("No available targets are compatible with triple " +:+ triple).

(** A registry that holds the backend of the host as well. *)
Definition hostLookup (reg : list string) (triple : string) : string + string :=
  if String.prefix "x86_64" triple then inl "64-bit X86"
  else sampleLookup reg triple.

(** A linker that fails with exit code 1 and leaves the files alone. *)
Definition failingLinker (program : string) (args : list string)
    (fs : FileSystem) : Z * string * FileSystem :=
  (1, "ld.lld: error: unknown file type", fs).

Definition sampleModule : Module (list string) :=
  {| moduleIdentifier := "kernel"; targetTriple := ""; dataLayout := "";
     functions := [ {| fnName := "add_kernel"; fnAttrs := [] |} ];
     body := ["add"] |}.

Definition sampleWorld : World (list string) :=
  {| heap := [sampleModule]; registry := []; stdout := ""; files := [];
     tmpnamCalls := 0 |}.



(** The sample process once [init_llvm] has run. *)
Definition registeredWorld : World (list string) :=
  with_registry (fun r =>
    r ++ ["AMDGPUTarget"; "AMDGPUTargetInfo"; "AMDGPUTargetMC";
          "AMDGPUAsmParser"; "AMDGPUAsmPrinter"]) sampleWorld.

(** Code generation that lowers the body in place and leaves a trace of
    what it lowered for. *)
Definition sampleEmit (machine : TargetMachine string) (t : CodeGenFileType)
    (m : Module (list string)) : Module (list string) * string :=
  match t with
  | CGFT_AssemblyFile =>
      ({| moduleIdentifier := moduleIdentifier m; targetTriple := targetTriple m;
          dataLayout := dataLayout m; functions := functions m;
          body := body m ++ ["lowered for assembly"] |}, "s_endpgm")
  | CGFT_ObjectFile =>
      ({| moduleIdentifier := moduleIdentifier m; targetTriple := targetTriple m;
          dataLayout := dataLayout m; functions := functions m;
          body := body m ++ ["lowered for object"] |}, "ELF")
  end.

Definition sampleTmpnam (n : nat) : string :=
  "/tmp/file" +:+ show_int (Z.of_nat n).

Definition sampleVerifier (m : Module (list string)) : Verdict := Verified.

Definition sampleDataLayout (machine : TargetMachine string) : string :=
  "e-p:64:64".

Definition sampleOpen (fs : FileSystem) (path : string) : option error_code :=
  None.

Definition sampleEnv (name : string) : bool := false.


(** A verifier that finds the body of a function broken, and one that
    finds the module broken outside its functions. *)
Definition rejectingVerifier (m : Module (list string)) : Verdict :=
  BrokenFunction.

Definition rejectingModuleVerifier (m : Module (list string)) : Verdict :=
  BrokenModule.

(** What [strerror(EBADF)] gives. *)
Definition sampleBadDescriptor : string := "Bad file descriptor".

(** A second module of the sample process, with the identifier of the
    first. *)
Definition twoModulesWorld : World (list string) :=
  with_heap (fun h => h ++ [sampleModule]) registeredWorld.

(** A linker that succeeds and writes the output named after [-o]. *)
Definition quietLinker (program : string) (args : list string)
    (fs : FileSystem) : Z * string * FileSystem :=
  (0, "", match args !! 5%nat with
          | Some out => writeFile out "HSACO" fs
          | None => fs
          end).

End HSACO.

(** * Properties *)

(** ** Instruction mnemonics (GCNAsmFormat.h) *)

Module GCNInstrFacts.
Import GCN.

Lemma alter_at {A} (f : A -> A) (l : list A) (i : nat) (x : A) :
  l !! i = Some x -> alter f i l = <[i := f x]> l.
Proof.
  intros Hx. apply list_eq. intros j.
  destruct (decide (i = j)) as [->|Hne].
  - rewrite list_lookup_alter_eq, Hx.
    rewrite list_lookup_insert_eq; [done|]. by eapply lookup_lt_Some.
  - by rewrite list_lookup_alter_ne, list_lookup_insert_ne.
Qed.

Lemma o_true (b : GCNBuilder) (this : InstrRef) (i : GCNInstrCommon) (s : string) :
  instrs b !! this = Some i ->
  o this s true b = Returned (this, withParts this (instrParts i ++ [s]) b).
Proof.
  intros Hi. unfold o, withParts, bind, modify, ret, with_instrs. simpl.
  by rewrite (alter_at _ _ _ _ Hi).
Qed.


Lemma withParts_lookup (b : GCNBuilder) (this : InstrRef) (i : GCNInstrCommon)
    (parts : list string) :
  instrs b !! this = Some i ->
  instrs (withParts this parts b) !! this = Some {| instrParts := parts |}.
Proof.
  intros Hi. unfold withParts. simpl.
  apply list_lookup_insert_eq. by eapply lookup_lt_Some.
Qed.


Lemma withParts_same (b : GCNBuilder) (this : InstrRef) (i : GCNInstrCommon) :
  instrs b !! this = Some i -> withParts this (instrParts i) b = b.
Proof.
  intros Hi. unfold withParts, with_instrs. destruct b as [ops ms ins es c].
  simpl in *. f_equal. destruct i as [parts]. simpl.
  by apply list_insert_id.
Qed.



Lemma o_then_this (b : GCNBuilder) (this : InstrRef) (i : GCNInstrCommon)
    (s : string) :
  instrs b !! this = Some i ->
  bind (bind (o this s true) (fun _ => ret tt)) (fun _ => ret this) b
  = Returned (this, withParts this (instrParts i ++ [s]) b).
Proof.
  intros Hi. unfold bind at 1 2. by rewrite (o_true _ _ _ _ Hi).
Qed.

(** C5.  [float_op_type] appends exactly "f16", "f32", "f64" for the widths
    16, 32, 64, and for width 8 it stops on the failed assertion without
    appending anything. *)
Theorem float_op_type_suffix (b : GCNBuilder) (this : InstrRef)
    (i : GCNInstrCommon) (Hi : instrs b !! this = Some i) :
  float_op_type this 16 b
    = Returned (this, withParts this (instrParts i ++ ["f16"]) b)
  /\ float_op_type this 32 b
    = Returned (this, withParts this (instrParts i ++ ["f32"]) b)
  /\ float_op_type this 64 b
    = Returned (this, withParts this (instrParts i ++ ["f64"]) b)
  /\ float_op_type this 8 b = AssertFail "Byte != width".
Proof.
  repeat split.
  - exact (o_then_this b this i "f16" Hi).
  - exact (o_then_this b this i "f32" Hi).
  - exact (o_then_this b this i "f64" Hi).
Qed.

Lemma width_not_recognised (w : Z) :
  w <> 8 -> w <> 16 -> w <> 32 -> w <> 64 ->
  (w =? Byte) = false /\ (w =? Short) = false
  /\ (w =? Dword) = false /\ (w =? Qword) = false.
Proof. unfold Byte, Short, Dword, Qword. lia. Qed.

(** C6.  [load_type] appends "ubyte", "ushort", "dword", "dwordx2" and
    [store_type] appends "byte", "short", "dword", "dwordx2" for the widths
    8, 16, 32, 64; for every other width both return without appending
    anything and without failing. *)
Theorem load_store_type_suffix (b : GCNBuilder) (this : InstrRef)
    (i : GCNInstrCommon) (Hi : instrs b !! this = Some i) :
  (load_type this 8 b
     = Returned (this, withParts this (instrParts i ++ ["ubyte"]) b)
   /\ load_type this 16 b
     = Returned (this, withParts this (instrParts i ++ ["ushort"]) b)
   /\ load_type this 32 b
     = Returned (this, withParts this (instrParts i ++ ["dword"]) b)
   /\ load_type this 64 b
     = Returned (this, withParts this (instrParts i ++ ["dwordx2"]) b))
  /\ (store_type this 8 b
     = Returned (this, withParts this (instrParts i ++ ["byte"]) b)
   /\ store_type this 16 b
     = Returned (this, withParts this (instrParts i ++ ["short"]) b)
   /\ store_type this 32 b
     = Returned (this, withParts this (instrParts i ++ ["dword"]) b)
   /\ store_type this 64 b
     = Returned (this, withParts this (instrParts i ++ ["dwordx2"]) b))
  /\ (forall w, w <> 8 -> w <> 16 -> w <> 32 -> w <> 64 ->
      load_type this w b = Returned (this, b)
      /\ store_type this w b = Returned (this, b)).
Proof.
  split; [|split].
  - repeat split.
    + exact (o_then_this b this i "ubyte" Hi).
    + exact (o_then_this b this i "ushort" Hi).
    + exact (o_then_this b this i "dword" Hi).
    + exact (o_then_this b this i "dwordx2" Hi).
  - repeat split.
    + exact (o_then_this b this i "byte" Hi).
    + exact (o_then_this b this i "short" Hi).
    + exact (o_then_this b this i "dword" Hi).
    + exact (o_then_this b this i "dwordx2" Hi).
  - intros w H8 H16 H32 H64.
    destruct (width_not_recognised w H8 H16 H32 H64) as (E8 & E16 & E32 & E64).
    unfold load_type, store_type. rewrite E8, E16, E32, E64. done.
Qed.


Lemma float_op_type_suffix_witness :
  float_op_type 0%nat 16 oneInstr
    = Returned (0%nat, withParts 0%nat ["v_add"; "f16"] oneInstr)
  /\ float_op_type 0%nat 8 oneInstr = AssertFail "Byte != width".
Proof.
  pose proof (float_op_type_suffix oneInstr 0%nat {| instrParts := ["v_add"] |} eq_refl)
    as (H16 & _ & _ & H8).
  exact (conj H16 H8).
Defined.

Lemma load_store_type_suffix_witness :
  load_type 0%nat 8 oneInstr
    = Returned (0%nat, withParts 0%nat ["v_add"; "ubyte"] oneInstr)
  /\ store_type 0%nat 64 oneInstr
    = Returned (0%nat, withParts 0%nat ["v_add"; "dwordx2"] oneInstr)
  /\ load_type 0%nat 128 oneInstr = Returned (0%nat, oneInstr).
Proof.
  pose proof (load_store_type_suffix oneInstr 0%nat {| instrParts := ["v_add"] |} eq_refl)
    as ((H8 & _) & (_ & _ & _ & H64) & Hother).
  refine (conj H8 (conj H64 (proj1 (Hother 128 _ _ _ _)))); lia.
Defined.

End GCNInstrFacts.

(** ** Operands and the creation routines (GCNAsmFormat.h) *)

Module GCNOperandFacts.
Import GCN.

Lemma isList_bare (o : Operand) : isList o = true <-> bare o.
Proof.
  unfold isList, bare. destruct (value o), (constraint o); simpl;
    split; try done; intros [? ?]; done.
Qed.

Lemma isList_false (o : Operand) :
  isList o = false <-> value o <> NullValue \/ constraint o <> "".
Proof.
  unfold isList. destruct (value o), (constraint o); simpl; split;
    try done; try (intros [?|?]; done); auto.
Qed.

Lemma for_each_fold {S A} (body : A -> M S unit) (f : S -> A -> S) (l : list A) :
  (forall x s, body x s = Returned (tt, f s x)) ->
  forall s, for_each l body s = Returned (tt, fold_left f l s).
Proof.
  intros Hbody. induction l as [|x l IH]; intros s; [done|].
  simpl. unfold bind. rewrite Hbody. apply IH.
Qed.

Lemma appendChild_lookup (lst : OperandRef) (child o : Operand) (b : GCNBuilder) :
  argArchive b !! lst = Some o ->
  argArchive (appendChild lst child b) !! lst
  = Some (push_olist (length (argArchive b)) o).
Proof.
  intros Ho. unfold appendChild. simpl.
  rewrite list_lookup_alter_eq.
  rewrite lookup_app_l; [|by eapply lookup_lt_Some].
  by rewrite Ho.
Qed.

Lemma bare_push_olist (h : OperandRef) (o : Operand) :
  bare o -> bare (push_olist h o).
Proof. done. Qed.

Lemma appendChild_fold_bare {A} (mk : A -> Operand) (lst : OperandRef)
    (items : list A) :
  forall b o, argArchive b !! lst = Some o -> bare o ->
    exists o', argArchive (fold_left (fun b it => appendChild lst (mk it) b)
                             items b) !! lst = Some o'
               /\ bare o'.
Proof.
  induction items as [|it items IH]; intros b o Ho Hb; simpl.
  - by exists o.
  - eapply IH; [by apply appendChild_lookup|]. by apply bare_push_olist.
Qed.

Lemma newOperand0_lookup (b : GCNBuilder) :
  argArchive (with_argArchive (fun l => l ++ [Operand_default]) b)
    !! length (argArchive b) = Some Operand_default.
Proof.
  simpl. rewrite lookup_app_r by lia. by rewrite Nat.sub_diag.
Qed.

(** The three populating overloads of [newListOperand] archive the list
    Operand, then one child per round. *)
Lemma newListOperandItems_run (items : list (Value * string)) (b : GCNBuilder) :
  newListOperandItems items b
  = Returned (length (argArchive b),
      fold_left (fun b' it =>
          appendChild (length (argArchive b))
            (Operand_bound (fst it) (snd it)) b')
        items (with_argArchive (fun l => l ++ [Operand_default]) b)).
Proof.
  unfold newListOperandItems, newOperand0, emplace_operand.
  unfold bind at 1 2 3. simpl. unfold bind at 1.
  rewrite (for_each_fold _ (fun b' it =>
      appendChild (length (argArchive b))
        (Operand_bound (fst it) (snd it)) b')); [done|].
  intros x s. reflexivity.
Qed.

Lemma newListOperandVal_run (count : nat) (v : Value) (c : string)
    (b : GCNBuilder) :
  newListOperandVal count v c b
  = Returned (length (argArchive b),
      fold_left (fun b' (_ : nat) =>
          appendChild (length (argArchive b)) (Operand_bound v c) b')
        (seq 0 count) (with_argArchive (fun l => l ++ [Operand_default]) b)).
Proof.
  unfold newListOperandVal, newOperand0, emplace_operand.
  unfold bind at 1 2 3. simpl. unfold bind at 1.
  rewrite (for_each_fold _ (fun b' (_ : nat) =>
      appendChild (length (argArchive b)) (Operand_bound v c) b')); [done|].
  intros x s. reflexivity.
Qed.

Lemma newListOperandOut_run (count : nat) (c : string) (b : GCNBuilder) :
  newListOperandOut count c b
  = Returned (length (argArchive b),
      fold_left (fun b' (_ : nat) =>
          appendChild (length (argArchive b))
            (set_constraint c Operand_default) b')
        (seq 0 count) (with_argArchive (fun l => l ++ [Operand_default]) b)).
Proof.
  unfold newListOperandOut, newOperand0, emplace_operand.
  unfold bind at 1 2 3. simpl. unfold bind at 1.
  rewrite (for_each_fold _ (fun b' (_ : nat) =>
      appendChild (length (argArchive b))
        (set_constraint c Operand_default) b')); [done|].
  intros x s. reflexivity.
Qed.

Lemma created_list_bare {A} (mk : A -> Operand) (items : list A)
    (r : B OperandRef) (b : GCNBuilder) :
  r b = Returned (length (argArchive b),
      fold_left (fun b' it => appendChild (length (argArchive b)) (mk it) b')
        items (with_argArchive (fun l => l ++ [Operand_default]) b)) ->
  exists o, created r b = Some o /\ isList o = true /\ bare o.
Proof.
  intros Hr. unfold created. rewrite Hr.
  destruct (appendChild_fold_bare mk (length (argArchive b)) items
              (with_argArchive (fun l => l ++ [Operand_default]) b)
              Operand_default (newOperand0_lookup b)) as (o' & Ho' & Hb');
    [done|].
  exists o'. split; [done|]. split; [by apply isList_bare | done].
Qed.

(** C8, the claim as stated, at a constant Operand: it is no list
    container, yet [isList()] holds for it. *)
Lemma constant_operand_isList : ~ constants_fail_isList.
Proof.
  intros H. specialize (H "0x10" newBuilder _ eq_refl). discriminate H.
Qed.

(** C8, amended.  [isList()] holds exactly for the Operands that carry
    neither a bound value nor a constraint.  Every Operand returned by a
    [newListOperand] overload is such an Operand, and so is every constant
    Operand; an Operand returned by [newOperand] fails [isList()] exactly
    when it has a bound value or a non-empty constraint. *)
Theorem isList_of_created_operands (b : GCNBuilder) :
  (forall o, isList o = true <-> bare o)
  /\ (exists o, created newListOperand b = Some o /\ isList o = true /\ bare o)
  /\ (forall items, exists o,
        created (newListOperandItems items) b = Some o
        /\ isList o = true /\ bare o)
  /\ (forall count v c, exists o,
        created (newListOperandVal count v c) b = Some o
        /\ isList o = true /\ bare o)
  /\ (forall count c, exists o,
        created (newListOperandOut count c) b = Some o
        /\ isList o = true /\ bare o)
  /\ (forall v, exists o,
        created (newConstantOperand v) b = Some o
        /\ isList o = true /\ bare o /\ olist o = [])
  /\ (forall fmt v, exists o,
        created (newConstantOperandInt fmt v) b = Some o
        /\ isList o = true /\ bare o /\ olist o = [])
  /\ (forall v c f, exists o,
        created (newOperand v c f) b = Some o
        /\ value o = v /\ constraint o = c
        /\ (isList o = false <-> v <> NullValue \/ c <> ""))
  /\ (forall c, exists o,
        created (newOperandOut c) b = Some o
        /\ value o = NullValue /\ constraint o = c
        /\ (isList o = false <-> c <> "")).
Proof.
  split; [exact isList_bare|].
  split.
  { exists Operand_default. split; [|done].
    unfold created. simpl. apply newOperand0_lookup. }
  split.
  { intros items. eapply created_list_bare, newListOperandItems_run. }
  split.
  { intros count v c.
    eapply (created_list_bare (fun _ : nat => Operand_bound v c)),
      newListOperandVal_run. }
  split.
  { intros count c.
    eapply (created_list_bare (fun _ : nat => set_constraint c Operand_default)),
      newListOperandOut_run. }
  split.
  { intros v. eexists. split.
    - unfold created. simpl. rewrite lookup_app_r by lia.
      by rewrite Nat.sub_diag.
    - done. }
  split.
  { intros fmt v. eexists. split.
    - unfold created. simpl. rewrite lookup_app_r by lia.
      by rewrite Nat.sub_diag.
    - done. }
  split.
  { intros v c f. eexists. split.
    - unfold created. simpl. rewrite lookup_app_r by lia.
      by rewrite Nat.sub_diag.
    - split; [done|]. split; [done|].
      rewrite isList_false. done. }
  intros c. eexists. split.
  - unfold created. simpl. rewrite lookup_app_r by lia.
    by rewrite Nat.sub_diag.
  - split; [done|]. split; [done|].
    rewrite isList_false. simpl. split; [intros [?|?]; done | auto].
Qed.

End GCNOperandFacts.

(** ** Index assignment and the constraint string *)

Module GCNIndexFacts.
Import GCN.

(** *** First occurrences *)

Lemma elem_of_distinct (l : list nat) (x : nat) : x ∈ distinct l <-> x ∈ l.
Proof.
  induction l as [|y l IH]; simpl; [done|].
  rewrite !elem_of_cons, list_elem_of_filter, IH.
  destruct (decide (x = y)); naive_solver.
Qed.

Lemma NoDup_distinct (l : list nat) : NoDup (distinct l).
Proof.
  induction l as [|y l IH]; simpl; [constructor|].
  apply NoDup_cons. split.
  - rewrite list_elem_of_filter. naive_solver.
  - by apply NoDup_filter.
Qed.

Lemma positionOf_Some (l : list nat) (h : nat) (k : nat) :
  positionOf h l = Some k -> l !! k = Some h.
Proof.
  revert k. induction l as [|x l IH]; intros k; simpl; [done|].
  case_decide as Hx.
  - intros [= <-]. by subst.
  - destruct (positionOf h l) as [k'|] eqn:Hp; simpl; [|done].
    intros [= <-]. by apply IH.
Qed.

Lemma positionOf_None (l : list nat) (h : nat) :
  positionOf h l = None <-> h ∉ l.
Proof.
  induction l as [|x l IH]; simpl.
  - split; [intros _; apply not_elem_of_nil | done].
  - rewrite not_elem_of_cons. case_decide as Hx.
    + split; [done | intros [? _]; congruence].
    + destruct (positionOf h l) eqn:Hp; simpl.
      * split; [done|]. intros [_ Hn]. by apply IH in Hn.
      * split; [|done]. intros _. split; [congruence | by apply IH].
Qed.

Lemma positionOf_NoDup (l : list nat) (h : nat) (k : nat) :
  NoDup l -> l !! k = Some h -> positionOf h l = Some k.
Proof.
  intros Hnd Hk.
  destruct (positionOf h l) as [k'|] eqn:Hp.
  - apply positionOf_Some in Hp. f_equal. by eapply NoDup_lookup.
  - apply positionOf_None in Hp. destruct Hp. by eapply list_elem_of_lookup_2.
Qed.

Lemma positionOf_app_fresh (l : list nat) (h : nat) :
  h ∉ l -> positionOf h (l ++ [h]) = Some (length l).
Proof.
  induction l as [|x l IH]; simpl; intros Hn.
  - by rewrite decide_True.
  - apply not_elem_of_cons in Hn as [Hne Hn].
    rewrite decide_False by congruence. by rewrite IH.
Qed.

Lemma positionOf_app_other (l : list nat) (h j : nat) :
  j <> h -> positionOf j (l ++ [h]) = positionOf j l.
Proof.
  intros Hne. induction l as [|x l IH]; simpl.
  - by rewrite decide_False by congruence.
  - case_decide; [done | by rewrite IH].
Qed.

(** *** Builders with a known set of indexed Operands *)

Lemma set_idx_same (o : Operand) : set_idx (idx o) o = o.
Proof. by destruct o. Qed.

Lemma set_idx_set_idx (i j : Z) (o : Operand) :
  set_idx i (set_idx j o) = set_idx i o.
Proof. done. Qed.

Lemma fresh_stamp (b : GCNBuilder) : fresh b -> stamp [] b = b.
Proof.
  intros [Hc Hidx]. destruct b as [ops ms ins es c]. simpl in *.
  unfold stamp, with_oprCounter, with_argArchive. simpl. subst c. f_equal.
  apply list_eq. intros i. rewrite list_lookup_imap.
  destruct (ops !! i) as [o|] eqn:Ho; simpl; [|done].
  rewrite Forall_lookup in Hidx. specialize (Hidx _ _ Ho). simpl in Hidx.
  unfold indexOf. simpl. rewrite <- Hidx. by rewrite set_idx_same.
Qed.

Lemma stamp_lookup (seen : list nat) (b : GCNBuilder) (h : nat) :
  argArchive (stamp seen b) !! h
  = set_idx (indexOf seen h) <$> argArchive b !! h.
Proof. unfold stamp. simpl. by rewrite list_lookup_imap. Qed.

Lemma indexOf_not_seen (seen : list nat) (h : nat) :
  indexOf seen h = -1 <-> h ∉ seen.
Proof.
  unfold indexOf. rewrite <- positionOf_None.
  destruct (positionOf h seen); split; try done; lia.
Qed.

Lemma assignIndex_stamp (seen : list nat) (b : GCNBuilder) (h : nat) :
  assignIndex (stamp seen b) h = stamp (addRef (argArchive b) seen h) b.
Proof.
  unfold assignIndex, addRef, indexable. rewrite stamp_lookup.
  destruct (argArchive b !! h) as [o|] eqn:Ho; simpl; [|done].
  change (isList (set_idx (indexOf seen h) o)) with (isList o).
  destruct (isList o); simpl; [done|].
  destruct (decide (h ∈ seen)) as [Hin|Hnin].
  - rewrite bool_decide_false by (intros Hn; by apply Hn).
    assert (indexOf seen h <> -1) as Hne by (by rewrite indexOf_not_seen; intros Hn; apply Hn).
    by rewrite (proj2 (Z.eqb_neq _ _) Hne).
  - rewrite bool_decide_true by done.
    rewrite (proj2 (indexOf_not_seen seen h) Hnin). simpl.
    unfold stamp, with_oprCounter, with_argArchive. simpl.
    rewrite length_app. simpl. f_equal; [|lia].
    apply list_eq. intros j. rewrite list_lookup_imap.
    destruct (decide (h = j)) as [<-|Hj].
    + rewrite list_lookup_insert_eq
        by (rewrite length_imap; by eapply lookup_lt_Some).
      rewrite Ho. simpl. unfold indexOf.
      by rewrite positionOf_app_fresh.
    + rewrite list_lookup_insert_ne by done. rewrite list_lookup_imap.
      unfold indexOf. by rewrite positionOf_app_other by done.
Qed.

Lemma assignIndex_fold (refs : list nat) :
  forall (seen : list nat) (b : GCNBuilder),
    fold_left assignIndex refs (stamp seen b)
    = stamp (fold_left (addRef (argArchive b)) refs seen) b.
Proof.
  induction refs as [|h refs IH]; intros seen b; simpl; [done|].
  rewrite assignIndex_stamp. apply IH.
Qed.

Lemma addRef_fold (ops : list Operand) (refs : list nat) :
  forall seen : list nat,
    fold_left (addRef ops) refs seen
    = seen ++ filter (fun y => y ∉ seen)
                (distinct (filter (fun h => indexable ops h = true) refs)).
Proof.
  induction refs as [|x refs IH]; intros seen; simpl.
  - by rewrite app_nil_r.
  - rewrite IH. unfold addRef.
    destruct (indexable ops x) eqn:Hx; simpl.
    + rewrite filter_cons_True by done. simpl.
      destruct (decide (x ∈ seen)) as [Hin|Hnin].
      * rewrite bool_decide_false by (intros Hn; by apply Hn).
        rewrite filter_cons_False by (intros Hn; by apply Hn).
        f_equal. rewrite list_filter_filter. apply list_filter_iff.
        intros y. split; [|naive_solver]. intros Hy. split; [done|].
        intros ->. by apply Hy.
      * rewrite bool_decide_true by done.
        rewrite filter_cons_True by done.
        rewrite <- app_assoc. simpl. do 2 f_equal.
        rewrite list_filter_filter. apply list_filter_iff.
        intros y. rewrite not_elem_of_app, list_elem_of_singleton. naive_solver.
    + by rewrite filter_cons_False by (by rewrite Hx).
Qed.

Lemma filter_all (P : nat -> Prop) `{forall x, Decision (P x)} (l : list nat) :
  (forall x, x ∈ l -> P x) -> filter P l = l.
Proof.
  induction l as [|x l IH]; intros HP; [done|].
  rewrite filter_cons_True by (apply HP; left).
  f_equal. apply IH. intros y Hy. apply HP. by right.
Qed.

Lemma assignIndices_stamp (b : GCNBuilder) :
  fresh b -> assignIndices b = stamp (firstReferences b) b.
Proof.
  intros Hf. unfold assignIndices, firstReferences.
  rewrite <- (fresh_stamp b Hf) at 2. rewrite assignIndex_fold.
  rewrite addRef_fold. simpl. f_equal.
  apply filter_all. intros y _. apply not_elem_of_nil.
Qed.

Lemma filter_none (P : nat -> Prop) `{forall x, Decision (P x)} (l : list nat) :
  (forall x, x ∈ l -> ~ P x) -> filter P l = [].
Proof.
  induction l as [|x l IH]; intros HP; [done|].
  rewrite filter_cons_False by (apply HP; left).
  apply IH. intros y Hy. apply HP. by right.
Qed.

(** *** Programs leave fresh builders *)

Lemma fresh_emplace (o : Operand) (b : GCNBuilder) :
  idx o = -1 -> fresh b -> fresh (with_argArchive (fun l => l ++ [o]) b).
Proof.
  intros Ho [Hc Hall]. split; [done|]. simpl.
  apply Forall_app. split; [done|]. by constructor.
Qed.

Lemma fresh_push (lst arg : nat) (b : GCNBuilder) :
  fresh b -> fresh (with_argArchive (alter (push_olist arg) lst) b).
Proof.
  intros [Hc Hall]. split; [done|]. simpl. by apply Forall_alter.
Qed.

Lemma fresh_appendChild (lst : nat) (child : Operand) (b : GCNBuilder) :
  idx child = -1 -> fresh b -> fresh (appendChild lst child b).
Proof.
  intros Ho Hf. unfold appendChild.
  by apply fresh_push, fresh_emplace.
Qed.

Lemma fresh_children {A} (mk : A -> Operand) (lst : nat) (items : list A) :
  (forall it, idx (mk it) = -1) ->
  forall b, fresh b ->
    fresh (fold_left (fun b' it => appendChild lst (mk it) b') items b).
Proof.
  intros Hmk. induction items as [|it items IH]; intros b Hf; simpl; [done|].
  apply IH. by apply fresh_appendChild.
Qed.

Lemma step_fresh (s : Step) (b : GCNBuilder) :
  fresh b -> exists b', step s b = Returned (tt, b') /\ fresh b'.
Proof.
  intros Hf. destruct s; simpl.
  - eexists. split; [reflexivity|]. by apply fresh_emplace.
  - eexists. split; [reflexivity|]. by apply fresh_emplace.
  - eexists. split; [reflexivity|]. by apply fresh_emplace.
  - eexists. split; [reflexivity|]. by apply fresh_emplace.
  - unfold bind. rewrite GCNOperandFacts.newListOperandItems_run.
    eexists. split; [reflexivity|].
    apply (fresh_children (fun it => Operand_bound (fst it) (snd it))); [done|].
    by apply fresh_emplace.
  - unfold bind. rewrite GCNOperandFacts.newListOperandVal_run.
    eexists. split; [reflexivity|].
    apply (fresh_children (fun _ : nat => Operand_bound v c)); [done|].
    by apply fresh_emplace.
  - unfold bind. rewrite GCNOperandFacts.newListOperandOut_run.
    eexists. split; [reflexivity|].
    apply (fresh_children (fun _ : nat => set_constraint c Operand_default));
      [done|].
    by apply fresh_emplace.
  - eexists. split; [reflexivity|]. by apply fresh_push.
  - eexists. split; [reflexivity|]. done.
  - eexists. split; [reflexivity|]. done.
Qed.

Lemma run_fresh (p : list Step) :
  forall b, fresh b -> exists b', run p b = Returned (tt, b') /\ fresh b'.
Proof.
  induction p as [|s p IH]; intros b Hf.
  - by exists b.
  - destruct (step_fresh s b Hf) as (b1 & Hs & Hf1).
    destruct (IH b1 Hf1) as (b' & Hr & Hf').
    exists b'. split; [|done].
    unfold run. simpl. unfold bind. rewrite Hs. exact Hr.
Qed.

Lemma fresh_newBuilder : fresh newBuilder.
Proof. split; [done | constructor]. Qed.

Lemma built_fresh (p : list Step) : exists b, built p = Some b /\ fresh b.
Proof.
  destruct (run_fresh p newBuilder fresh_newBuilder) as (b & Hr & Hf).
  exists b. unfold built. by rewrite Hr.
Qed.

(** *** What index assignment leaves *)

Lemma firstReferences_indexable (b : GCNBuilder) (h : nat) :
  h ∈ firstReferences b -> indexable (argArchive b) h = true.
Proof.
  unfold firstReferences. rewrite elem_of_distinct, list_elem_of_filter.
  by intros [? _].
Qed.

Lemma NoDup_firstReferences (b : GCNBuilder) : NoDup (firstReferences b).
Proof. apply NoDup_distinct. Qed.

Lemma expandArg_stamp (seen : list nat) (b : GCNBuilder) (h : nat) :
  expandArg (argArchive (stamp seen b)) h = expandArg (argArchive b) h.
Proof.
  unfold expandArg. rewrite stamp_lookup.
  by destruct (argArchive b !! h).
Qed.

Lemma references_stamp (seen : list nat) (b : GCNBuilder) :
  references (stamp seen b) = references b.
Proof.
  unfold references. change (executions (stamp seen b)) with (executions b).
  apply flat_map_ext. intros e. unfold getArgList.
  apply flat_map_ext. intros h. apply expandArg_stamp.
Qed.

Lemma indexable_stamp (seen : list nat) (b : GCNBuilder) (h : nat) :
  indexable (argArchive (stamp seen b)) h = indexable (argArchive b) h.
Proof.
  unfold indexable. rewrite stamp_lookup. by destruct (argArchive b !! h).
Qed.

Lemma addRef_known (b : GCNBuilder) (h : nat) :
  h ∈ references b ->
  addRef (argArchive b) (firstReferences b) h = firstReferences b.
Proof.
  intros Hin. unfold addRef.
  destruct (indexable (argArchive b) h) eqn:Hx; simpl; [|done].
  rewrite bool_decide_false; [done|]. intros Hn. apply Hn.
  unfold firstReferences. rewrite elem_of_distinct, list_elem_of_filter. done.
Qed.

Lemma stamp_again (b : GCNBuilder) :
  fold_left (addRef (argArchive b)) (references b) (firstReferences b)
  = firstReferences b.
Proof.
  rewrite addRef_fold. fold (firstReferences b).
  rewrite (filter_none (fun y => y ∉ firstReferences b)); [by rewrite app_nil_r|].
  intros y Hy Hn. by apply Hn.
Qed.

Lemma omap_seq (f : nat -> option nat) (l : list nat) :
  forall s : nat,
    (forall i h, l !! i = Some h -> f (s + i)%nat = Some h) ->
    omap f (seq s (length l)) = l.
Proof.
  induction l as [|x l IH]; intros s Hf; simpl; [done|].
  pose proof (Hf 0%nat x eq_refl) as H0. rewrite Nat.add_0_r in H0.
  rewrite H0. f_equal. apply IH. intros i h Hi.
  replace (S s + i)%nat with (s + S i)%nat by lia. by apply Hf.
Qed.

Lemma operandAt_stamp (seen : list nat) (b : GCNBuilder) (i h : nat) :
  NoDup seen ->
  is_Some (argArchive b !! h) ->
  seen !! i = Some h ->
  operandAt (argArchive (stamp seen b)) (Z.of_nat i) = Some h.
Proof.
  intros Hnd [o Ho] Hi. unfold operandAt.
  assert (list_find (fun o' => idx o' = Z.of_nat i) (argArchive (stamp seen b))
          = Some (h, set_idx (Z.of_nat i) o)) as ->; [|done].
  apply list_find_Some. split; [|split].
  - rewrite stamp_lookup, Ho. simpl. unfold indexOf.
    by rewrite (positionOf_NoDup _ _ _ Hnd Hi).
  - done.
  - intros j y Hj Hlt Hy. rewrite stamp_lookup in Hj.
    destruct (argArchive b !! j) as [oj|]; simpl in Hj; [|done].
    injection Hj as <-. simpl in Hy. unfold indexOf in Hy.
    destruct (positionOf j seen) as [k|] eqn:Hk; [|lia].
    apply positionOf_Some in Hk.
    assert (k = i) as -> by lia.
    rewrite Hi in Hk. injection Hk as ->. lia.
Qed.

Lemma getAllArgs_fresh (b : GCNBuilder) :
  fresh b -> getAllArgs b = firstReferences b.
Proof.
  intros Hf. unfold getAllArgs. rewrite (assignIndices_stamp b Hf).
  simpl. rewrite Nat2Z.id. apply omap_seq. intros i h Hi. simpl.
  apply operandAt_stamp; [apply NoDup_firstReferences | | done].
  apply list_elem_of_lookup_2, firstReferences_indexable in Hi.
  unfold indexable in Hi. by destruct (argArchive b !! h).
Qed.

(** C3.  After any program of creations and invocations on one builder,
    index assignment gives the k-th distinct referenced non-list Operand,
    counted from 0 in first-reference order with lists replaced by their
    children, the index k; a list Operand keeps the index -1; and
    referencing again an Operand that was reached, or walking all
    invocations again, changes nothing. *)
Theorem index_is_first_reference_rank (p : list Step) :
  exists b,
    built p = Some b
    /\ (forall k h, firstReferences b !! k = Some h ->
          exists o, argArchive (assignIndices b) !! h = Some o
                    /\ isList o = false /\ idx o = Z.of_nat k)
    /\ (forall h o, argArchive (assignIndices b) !! h = Some o ->
          isList o = true -> idx o = -1)
    /\ (forall h, h ∈ references b ->
          assignIndex (assignIndices b) h = assignIndices b)
    /\ assignIndices (assignIndices b) = assignIndices b.
Proof.
  destruct (built_fresh p) as (b & Hb & Hf). exists b. split; [done|].
  rewrite (assignIndices_stamp b Hf). split; [|split; [|split]].
  - intros k h Hk.
    pose proof (firstReferences_indexable b h (list_elem_of_lookup_2 _ _ _ Hk))
      as Hx.
    unfold indexable in Hx. rewrite stamp_lookup.
    destruct (argArchive b !! h) as [o|]; [|done]. simpl.
    eexists. split; [reflexivity|]. split.
    + change (isList o = false). by apply negb_true_iff.
    + simpl. unfold indexOf.
      by rewrite (positionOf_NoDup _ _ _ (NoDup_firstReferences b) Hk).
  - intros h o Ho Hl. rewrite stamp_lookup in Ho.
    destruct (argArchive b !! h) as [o0|] eqn:Ho0; simpl in Ho; [|done].
    injection Ho as <-. simpl. apply indexOf_not_seen. intros Hin.
    apply firstReferences_indexable in Hin. unfold indexable in Hin.
    rewrite Ho0 in Hin. change (isList o0 = true) in Hl.
    rewrite Hl in Hin. done.
  - intros h Hin. rewrite assignIndex_stamp. by rewrite addRef_known.
  - unfold assignIndices at 1. rewrite references_stamp.
    rewrite assignIndex_fold. by rewrite stamp_again.
Qed.

Lemma index_is_first_reference_rank_witness :
  exists b,
    built sampleProgram = Some b
    /\ firstReferences b = [1; 3; 4; 5; 0]%nat
    /\ (idx <$> argArchive (assignIndices b)) = [4; 0; -1; 1; 2; 3; -1].
Proof.
  destruct (index_is_first_reference_rank sampleProgram)
    as (b & Hb & _).
  exists b. split; [exact Hb|].
  injection Hb as <-. split; reflexivity.
Defined.

(** C4.  After any program of creations and invocations on one builder,
    the Operands [getAllArgs] returns are the distinct referenced non-list
    Operands in first-reference order, lists replaced by their children,
    and [getConstraints] is the comma-joined list of their constraints.
    Scenario 1: constraints "=r" and "r" on a two-operand "v_mov_b32" give
    "=r,r", and with ", " between operands the text "v_mov_b32 %0, %1". *)
Theorem constraints_follow_index_order (p : list Step) :
  (exists b,
      built p = Some b
      /\ getAllArgs b = firstReferences b
      /\ getConstraints b
         = String.concat ","
             (map (constraintOf (argArchive b)) (firstReferences b)))
  /\ (exists b,
      built scenario1 = Some b
      /\ getConstraints b = "=r,r"
      /\ forall sx, argSep sx = ", " -> dump sx b = "v_mov_b32 %0, %1").
Proof.
  split.
  - destruct (built_fresh p) as (b & Hb & Hf). exists b. split; [done|].
    split; [by apply getAllArgs_fresh|].
    unfold getConstraints. by rewrite (getAllArgs_fresh b Hf).
  - eexists. split; [reflexivity|]. split; [reflexivity|].
    intros [pd sep ms ss] Hsep. simpl in Hsep. subst sep. reflexivity.
Qed.

Lemma constraints_follow_index_order_witness :
  exists b,
    built sampleProgram = Some b
    /\ getConstraints b = "r,v,v,v,=r".
Proof.
  destruct (proj1 (constraints_follow_index_order sampleProgram))
    as (b & Hb & _ & Hc).
  exists b. split; [exact Hb|]. rewrite Hc.
  injection Hb as <-. reflexivity.
Defined.

(** Scenario 2: the three children of the list receive the indices 0, 1,
    2, the list itself none, and the constraint string is "r,r,r". *)
Example scenario2_indices :
  exists b,
    built scenario2 = Some b
    /\ (idx <$> argArchive (assignIndices b)) = [-1; 0; 1; 2]
    /\ getConstraints b = "r,r,r".
Proof. eexists. split; [reflexivity|]. split; reflexivity. Qed.

End GCNIndexFacts.

(** ** Default operands of the store and load builders (Ops.cpp) *)

Module OpsFacts.
Import Ops.

Lemma create_ConstantOp_result (loc : Location) (type : MType) (a : Attribute)
    (b : OpBuilder) (st : OperationState) :
  create_ConstantOp loc type a (b, st)
  = Returned
      ({| vType := type; vLoc := loc; vDef := OpResult (length (inserted b)) |},
       ({| inserted := inserted b ++ [ {| cLoc := loc; cType := type; cValue := a |} ] |},
        st)).
Proof. reflexivity. Qed.

Ltac defining_op :=
  unfold definingOp; simpl; rewrite <- ?app_assoc, ?length_app; simpl;
  rewrite lookup_app_r by lia;
  match goal with
  | |- _ !! ?i = _ =>
      (replace i with 0%nat by lia) || (replace i with 1%nat by lia)
  end; reflexivity.

Lemma splat_values (shape : list Z) (elt : MType) (e : Attribute) :
  getValues (DenseElementsAttr (RankedTensorType shape elt) [e])
  = repeat e (getNumElements shape).
Proof. reflexivity. Qed.

(** [Builder::getZeroAttr] has a zero for integer, floating-point and
    index types. *)
Lemma getZeroAttr_scalar (pointee : MType) :
  (exists width, pointee = IntegerType width)
  \/ (exists width, pointee = FloatType width)
  \/ pointee = IndexType ->
  getZeroAttr pointee <> NullAttr.
Proof. by intros [[n ->]|[[n ->]| ->]]. Qed.

Lemma StoreOp_build_run (ptr value : Value) (shape : list Z) (elt : MType)
    (b : OpBuilder) (st : OperationState) :
  vType ptr = RankedTensorType shape elt ->
  let type := RankedTensorType shape (IntegerType 1) in
  let maskOp :=
    {| cLoc := vLoc ptr; cType := type;
       cValue := DenseElementsAttr type [BoolAttr true] |} in
  let mask :=
    {| vType := type; vLoc := vLoc ptr;
       vDef := OpResult (length (inserted b)) |} in
  StoreOp_build ptr value (b, st)
  = Returned (tt, ({| inserted := inserted b ++ [maskOp] |},
                   {| operands := operands st ++ [ptr; value; mask];
                      types := types st |})).
Proof.
  intros Hptr type maskOp mask.
  unfold StoreOp_build. rewrite Hptr. simpl.
  unfold bind at 1. simpl. unfold bind at 1.
  rewrite create_ConstantOp_result.
  unfold bind, addOperands, modify. simpl.
  rewrite <- !app_assoc. simpl. reflexivity.
Qed.

Lemma LoadOp_build_run (ptr : Value) (shape : list Z) (pointee : MType)
    (zero : Attribute) (b : OpBuilder) (st : OperationState) :
  vType ptr = RankedTensorType shape (PointerType pointee) ->
  getZeroAttr pointee = zero ->
  zero <> NullAttr ->
  let type := RankedTensorType shape (IntegerType 1) in
  let resultType := RankedTensorType shape pointee in
  let maskOp :=
    {| cLoc := vLoc ptr; cType := type;
       cValue := DenseElementsAttr type [BoolAttr true] |} in
  let otherOp :=
    {| cLoc := vLoc ptr; cType := resultType;
       cValue := DenseElementsAttr resultType [zero] |} in
  let mask :=
    {| vType := type; vLoc := vLoc ptr;
       vDef := OpResult (length (inserted b)) |} in
  let other :=
    {| vType := resultType; vLoc := vLoc ptr;
       vDef := OpResult (S (length (inserted b))) |} in
  LoadOp_build ptr (b, st)
  = Returned (tt, ({| inserted := inserted b ++ [maskOp; otherOp] |},
                   {| operands := operands st ++ [ptr; mask; other];
                      types := types st ++ [resultType] |})).
Proof.
  intros Hptr Hget Hnz type resultType maskOp otherOp mask other.
  unfold LoadOp_build. rewrite Hptr. simpl.
  unfold bind at 1. simpl. unfold bind at 1. simpl. unfold bind at 1.
  rewrite create_ConstantOp_result.
  unfold bind at 1. rewrite Hget.
  assert (DenseElementsAttr_get (RankedTensorType shape pointee) zero
          = ret (DenseElementsAttr (RankedTensorType shape pointee) [zero]))
    as ->.
  { unfold DenseElementsAttr_get. by destruct zero. }
  unfold ret at 1. unfold bind at 1.
  rewrite create_ConstantOp_result.
  unfold bind, addOperands, addTypes, modify. simpl.
  rewrite <- !app_assoc. simpl. rewrite length_app. simpl.
  replace (length (inserted b) + 1)%nat with (S (length (inserted b)))
    by lia.
  reflexivity.
Qed.

(** C10, amended.  For a [ptr] that is a ranked tensor of shape [shape],
    the two-argument [StoreOp::build] adds the operands [ptr], [value] and
    a mask that is a constant tensor of that shape of 1-bit integers with
    every element true.  For a [ptr] that is a ranked tensor of pointers to
    an integer, floating-point or index type, the one-argument
    [LoadOp::build] adds [ptr], such a mask and an [other] that is a
    constant tensor of the pointee type with every element the zero of
    that type, and sets the single result type to the ranked tensor of the
    pointee type with the same shape. *)
Theorem default_mask_and_other (ptr value : Value) (shape : list Z)
    (elt : MType) (b : OpBuilder) (st : OperationState)
    (Hptr : vType ptr = RankedTensorType shape elt) :
  (exists mask b',
      StoreOp_build ptr value (b, st)
      = Returned (tt, (b', {| operands := operands st ++ [ptr; value; mask];
                              types := types st |}))
      /\ constantTensor b' mask shape (IntegerType 1) (BoolAttr true))
  /\ (forall pointee zero,
      elt = PointerType pointee ->
      (exists width, pointee = IntegerType width
                     /\ zero = IntegerAttr (IntegerType width) 0)
      \/ (exists width, pointee = FloatType width
                        /\ zero = ZeroFloatAttr (FloatType width))
      \/ (pointee = IndexType /\ zero = IntegerAttr IndexType 0) ->
      exists mask other b',
        LoadOp_build ptr (b, st)
        = Returned (tt, (b', {| operands := operands st ++ [ptr; mask; other];
                                types := types st
                                         ++ [RankedTensorType shape pointee] |}))
        /\ constantTensor b' mask shape (IntegerType 1) (BoolAttr true)
        /\ constantTensor b' other shape pointee zero).
Proof.
  split.
  - eexists _, _. split.
    + exact (StoreOp_build_run ptr value shape elt b st Hptr).
    + split; [reflexivity|]. eexists. split.
      * defining_op.
      * split; [reflexivity | apply splat_values].
  - intros pointee zero -> Hkind.
    assert (Hzero : getZeroAttr pointee = zero /\ zero <> NullAttr).
    { by destruct Hkind as [(n & -> & ->)|[(n & -> & ->)|[-> ->]]]. }
    destruct Hzero as [Hget Hnz].
    eexists _, _, _. split.
    + exact (LoadOp_build_run ptr shape pointee zero b st Hptr Hget Hnz).
    + split.
      * split; [reflexivity|]. eexists. split.
        -- defining_op.
        -- split; [reflexivity | apply splat_values].
      * split; [reflexivity|]. eexists. split.
        -- defining_op.
        -- split; [reflexivity | apply splat_values].
Qed.

Lemma default_mask_and_other_witness :
  exists mask other b',
    LoadOp_build samplePtr ({| inserted := [] |}, {| operands := []; types := [] |})
    = Returned (tt, (b', {| operands := [samplePtr; mask; other];
                            types := [RankedTensorType [2; 3] (FloatType 32)] |}))
    /\ constantTensor b' mask [2; 3] (IntegerType 1) (BoolAttr true)
    /\ constantTensor b' other [2; 3] (FloatType 32) (ZeroFloatAttr (FloatType 32)).
Proof.
  refine (proj2 (default_mask_and_other samplePtr sampleValue [2; 3]
                   (PointerType (FloatType 32))
                   {| inserted := [] |} {| operands := []; types := [] |}
                   eq_refl)
            (FloatType 32) (ZeroFloatAttr (FloatType 32)) eq_refl _).
  right. left. exists 32%N. split; reflexivity.
Defined.

(** C10, the claim as stated, at two calls that build nothing.  On a
    tensor of pointers to pointers [LoadOp::build] has no zero for the
    pointee type and ends in a call through the null attribute; on a
    pointer that is no tensor [StoreOp::build] ends in a call through the
    null tensor type.  No mask, no [other] and no result type are
    added. *)
Lemma mask_and_other_are_not_built_for_every_call :
  LoadOp_build ptrToPtr
    ({| inserted := [] |}, {| operands := []; types := [] |})
  = NullDeref
  /\ StoreOp_build scalarPtr sampleValue
       ({| inserted := [] |}, {| operands := []; types := [] |})
     = NullDeref.
Proof. split; reflexivity. Qed.

End OpsFacts.

(** ** More on operands, modifiers and mnemonics (GCNAsmFormat.h) *)

Module GCNMoreFacts.
Import GCN.

(** *** Operand lists *)

Lemma listAppend_chain_run (args : list nat) :
  forall (b : GCNBuilder) (this : nat) (o0 : Operand),
    argArchive b !! this = Some o0 ->
    exists o',
      listAppend_chain this args b
      = Returned (this, with_argArchive (fun l => <[this := o']> l) b)
      /\ olist o' = olist o0 ++ args
      /\ value o' = value o0 /\ constraint o' = constraint o0
      /\ idx o' = idx o0 /\ repr o' = repr o0.
Proof.
  induction args as [|a rest IH]; intros b this o0 Ho.
  - exists o0. split.
    + simpl. unfold ret. do 2 f_equal. destruct b as [ops ms ins es c].
      unfold with_argArchive. simpl in *. f_equal.
      symmetry. by apply list_insert_id.
    + by rewrite app_nil_r.
  - simpl. unfold bind at 1.
    change (listAppend this a b)
      with (Returned (this, with_argArchive (alter (push_olist a) this) b)).
    destruct (IH (with_argArchive (alter (push_olist a) this) b) this
                (push_olist a o0)) as (o' & Hrun & Hl & Hv & Hc & Hi & Hr).
    { simpl. by rewrite list_lookup_alter_eq, Ho. }
    exists o'. split.
    + rewrite Hrun. do 2 f_equal. unfold with_argArchive. simpl. f_equal.
      rewrite (GCNInstrFacts.alter_at _ _ _ _ Ho).
      apply list_insert_insert_eq.
    + rewrite Hl. simpl. by rewrite <- app_assoc.
Qed.

Lemma listGet_at (b : GCNBuilder) (this : nat) (o0 : Operand) (k : nat) :
  argArchive b !! this = Some o0 ->
  listGet this k b
  = match olist o0 !! k with
    | Some h => Returned (h, b)
    | None => AssertFail "nth < list.size()"
    end.
Proof.
  intros Ho. unfold listGet, bind, get, assert, ret, abort. rewrite Ho.
  destruct (olist o0 !! k) as [h|] eqn:Hk.
  - rewrite (proj2 (Nat.ltb_lt _ _)) by (by eapply lookup_lt_Some). done.
  - apply lookup_ge_None in Hk.
    by rewrite (proj2 (Nat.ltb_ge _ _)) by done.
Qed.

(** X1.  Children appended to a live list Operand by chained [listAppend]
    calls are read back by [listGet] in the order they were appended,
    after the children the Operand already had; [listGet] changes nothing,
    and an index at or past the number of children ends in the failed
    assertion. *)
Theorem listGet_reads_what_listAppend_wrote (b : GCNBuilder) (this : nat)
    (o0 : Operand) (args : list nat)
    (Ho : argArchive b !! this = Some o0) :
  exists b',
    listAppend_chain this args b = Returned (this, b')
    /\ (forall k h, (olist o0 ++ args) !! k = Some h ->
          listGet this k b' = Returned (h, b'))
    /\ (forall k, (length (olist o0) + length args <= k)%nat ->
          listGet this k b' = AssertFail "nth < list.size()").
Proof.
  destruct (listAppend_chain_run args b this o0 Ho)
    as (o' & Hrun & Hl & _).
  eexists. split; [exact Hrun|].
  assert (Ho' : argArchive (with_argArchive (fun l => <[this := o']> l) b)
                  !! this = Some o').
  { simpl. apply list_lookup_insert_eq. by eapply lookup_lt_Some. }
  split.
  - intros k h Hk. rewrite (listGet_at _ _ _ _ Ho'), Hl. by rewrite Hk.
  - intros k Hk. rewrite (listGet_at _ _ _ _ Ho'), Hl.
    rewrite (proj2 (lookup_ge_None _ _)); [done|].
    rewrite length_app. lia.
Qed.

Lemma listGet_reads_what_listAppend_wrote_witness :
  exists b',
    listAppend_chain 0%nat [5; 7; 5]%nat oneList = Returned (0%nat, b')
    /\ listGet 0%nat 1%nat b' = Returned (7%nat, b')
    /\ listGet 0%nat 3%nat b' = AssertFail "nth < list.size()".
Proof.
  destruct (listGet_reads_what_listAppend_wrote oneList 0%nat Operand_default
              [5; 7; 5]%nat eq_refl) as (b' & Hrun & Hget & Hfail).
  exists b'. split; [exact Hrun|]. split.
  - exact (Hget 1%nat 7%nat eq_refl).
  - apply Hfail. simpl. lia.
Defined.

(** X2.  [listAppend] returns the Operand it was called on and touches
    nothing but that Operand's child list: the archive keeps its length,
    every Operand keeps its value, constraint, index and therefore its
    answer to [isList()], and modifiers, instructions, invocations and the
    operand counter stay as they were. *)
Theorem listAppend_only_grows_the_child_list (b : GCNBuilder) (this a : nat) :
  exists b',
    listAppend this a b = Returned (this, b')
    /\ length (argArchive b') = length (argArchive b)
    /\ (forall h o', argArchive b' !! h = Some o' ->
          exists o, argArchive b !! h = Some o
                    /\ value o' = value o /\ constraint o' = constraint o
                    /\ idx o' = idx o /\ isList o' = isList o
                    /\ olist o' = if decide (h = this) then olist o ++ [a]
                                  else olist o)
    /\ modArchive b' = modArchive b /\ instrs b' = instrs b
    /\ executions b' = executions b /\ oprCounter b' = oprCounter b.
Proof.
  eexists. split; [reflexivity|]. simpl. split; [by rewrite length_alter|].
  split; [|done].
  intros h o' Ho'. destruct (decide (h = this)) as [->|Hh].
  - rewrite list_lookup_alter_eq in Ho'.
    destruct (argArchive b !! this) as [o|] eqn:Ho; simpl in Ho'; [|done].
    injection Ho' as <-. by exists o.
  - rewrite list_lookup_alter_ne in Ho' by done. by exists o'.
Qed.

(** *** Modifiers *)

(** X3.  A Modifier built by the two-argument constructor has an empty
    name, so [isList()] holds for it exactly when it has no bound value,
    whatever its argument, and it renders to nothing or to a colon
    followed by the argument. *)
Theorem bound_modifier_is_a_list_without_value (v : Value) (a : string) :
  (Modifier_isList (Modifier_bound v a) = true <-> v = NullValue)
  /\ to_str (Modifier_bound v a) = (if isEmpty a then "" else ":" +:+ a).
Proof.
  split.
  - unfold Modifier_isList. simpl. destruct v; simpl; split; done.
  - unfold to_str. simpl. by destruct a.
Qed.

Lemma string_length_app (a b : string) :
  String.length (a +:+ b) = (String.length a + String.length b)%nat.
Proof.
  induction a as [|c a IH]; [done|].
  change (S (String.length (a +:+ b))
          = S (String.length a + String.length b)%nat).
  by rewrite IH.
Qed.

Lemma string_prefix_app (a b : string) : String.prefix a (a +:+ b) = true.
Proof.
  induction a as [|c a IH].
  - by destruct b.
  - change (String.prefix (String c a) (String c (a +:+ b)) = true).
    simpl. by destruct (ascii_dec c c).
Qed.

Lemma string_prefix_refl (a : string) : String.prefix a a = true.
Proof.
  induction a as [|c a IH]; [done|]. simpl. by destruct (ascii_dec c c).
Qed.

(** X4.  [to_str] always starts with the modifier's name; it is the bare
    name exactly when the argument is empty, and otherwise it is longer
    than the name by the colon and the argument. *)
Theorem to_str_is_name_then_argument (m : Modifier) :
  String.prefix (modifier m) (to_str m) = true
  /\ (to_str m = modifier m <-> arg m = "")
  /\ String.length (to_str m)
     = (String.length (modifier m)
        + if isEmpty (arg m) then 0 else S (String.length (arg m)))%nat.
Proof.
  unfold to_str. destruct (arg m) as [|c a] eqn:Ha; simpl.
  - split; [apply string_prefix_refl|]. split; [done | lia].
  - split; [apply string_prefix_app|]. split.
    + split; [|done]. intros Heq.
      apply (f_equal String.length) in Heq.
      rewrite string_length_app in Heq. simpl in Heq. lia.
    + rewrite string_length_app. simpl. lia.
Qed.

Lemma Modifier_listAppend_chain_run (args : list nat) :
  forall (b : GCNBuilder) (this : nat) (m0 : Modifier),
    modArchive b !! this = Some m0 ->
    exists m',
      Modifier_listAppend_chain this args b
      = Returned (this, with_modArchive (fun l => <[this := m']> l) b)
      /\ mlist m' = mlist m0 ++ args
      /\ mvalue m' = mvalue m0 /\ modifier m' = modifier m0
      /\ arg m' = arg m0.
Proof.
  induction args as [|a rest IH]; intros b this m0 Hm.
  - exists m0. split.
    + simpl. unfold ret. do 2 f_equal. destruct b as [ops ms ins es c].
      unfold with_modArchive. simpl in *. f_equal.
      symmetry. by apply list_insert_id.
    + by rewrite app_nil_r.
  - simpl. unfold bind at 1.
    change (Modifier_listAppend this a b)
      with (Returned (this, with_modArchive (alter (push_mlist a) this) b)).
    destruct (IH (with_modArchive (alter (push_mlist a) this) b) this
                (push_mlist a m0)) as (m' & Hrun & Hl & Hv & Hn & Ha).
    { simpl. by rewrite list_lookup_alter_eq, Hm. }
    exists m'. split.
    + rewrite Hrun. do 2 f_equal. unfold with_modArchive. simpl. f_equal.
      rewrite (GCNInstrFacts.alter_at _ _ _ _ Hm).
      apply list_insert_insert_eq.
    + rewrite Hl. simpl. by rewrite <- app_assoc.
Qed.

Lemma Modifier_listGet_at (b : GCNBuilder) (this : nat) (m0 : Modifier)
    (k : nat) :
  modArchive b !! this = Some m0 ->
  Modifier_listGet this k b
  = match mlist m0 !! k with
    | Some h => Returned (h, b)
    | None => AssertFail "index < list.size()"
    end.
Proof.
  intros Hm. unfold Modifier_listGet, bind, get, assert, ret, abort.
  rewrite Hm. destruct (mlist m0 !! k) as [h|] eqn:Hk.
  - rewrite (proj2 (Nat.ltb_lt _ _)) by (by eapply lookup_lt_Some). done.
  - apply lookup_ge_None in Hk.
    by rewrite (proj2 (Nat.ltb_ge _ _)) by done.
Qed.

(** X5.  A Modifier list behaves like an Operand list: what chained
    [listAppend] calls append to a live Modifier, [listGet] reads back in
    the same order without changing anything, the Modifier keeps its
    value, name and argument, and an index past the end ends in the
    failed assertion. *)
Theorem modifier_listGet_reads_what_listAppend_wrote (b : GCNBuilder)
    (this : nat) (m0 : Modifier) (args : list nat)
    (Hm : modArchive b !! this = Some m0) :
  exists b' m',
    Modifier_listAppend_chain this args b = Returned (this, b')
    /\ modArchive b' !! this = Some m'
    /\ Modifier_isList m' = Modifier_isList m0 /\ to_str m' = to_str m0
    /\ argArchive b' = argArchive b
    /\ (forall k h, (mlist m0 ++ args) !! k = Some h ->
          Modifier_listGet this k b' = Returned (h, b'))
    /\ (forall k, (length (mlist m0) + length args <= k)%nat ->
          Modifier_listGet this k b' = AssertFail "index < list.size()").
Proof.
  destruct (Modifier_listAppend_chain_run args b this m0 Hm)
    as (m' & Hrun & Hl & Hv & Hn & Ha).
  eexists _, m'. split; [exact Hrun|].
  assert (Hm' : modArchive (with_modArchive (fun l => <[this := m']> l) b)
                  !! this = Some m').
  { simpl. apply list_lookup_insert_eq. by eapply lookup_lt_Some. }
  split; [exact Hm'|].
  split; [unfold Modifier_isList; by rewrite Hv, Hn|].
  split; [unfold to_str; by rewrite Hn, Ha|].
  split; [done|]. split.
  - intros k h Hk. rewrite (Modifier_listGet_at _ _ _ _ Hm'), Hl.
    by rewrite Hk.
  - intros k Hk. rewrite (Modifier_listGet_at _ _ _ _ Hm'), Hl.
    rewrite (proj2 (lookup_ge_None _ _)); [done|].
    rewrite length_app. lia.
Qed.

Lemma modifier_listGet_reads_what_listAppend_wrote_witness :
  exists b',
    Modifier_listAppend_chain 0%nat [3; 4]%nat oneList = Returned (0%nat, b')
    /\ Modifier_listGet 0%nat 0%nat b' = Returned (3%nat, b')
    /\ Modifier_listGet 0%nat 2%nat b' = AssertFail "index < list.size()".
Proof.
  destruct (modifier_listGet_reads_what_listAppend_wrote oneList 0%nat
              Modifier_default [3; 4]%nat eq_refl)
    as (b' & m' & Hrun & _ & _ & _ & _ & Hget & Hfail).
  exists b'. split; [exact Hrun|]. split.
  - exact (Hget 0%nat 3%nat eq_refl).
  - apply Hfail. simpl. lia.
Defined.

(** *** Mnemonic suffixes *)

Lemma unchanged_withParts (b : GCNBuilder) (this : nat) (i : GCNInstrCommon) :
  instrs b !! this = Some i -> b = withParts this (instrParts i ++ []) b.
Proof.
  intros Hi. rewrite app_nil_r. symmetry. by apply GCNInstrFacts.withParts_same.
Qed.

Lemma width_cases (w : Z) :
  w = 8 \/ w = 16 \/ w = 32 \/ w = 64
  \/ (w <> 8 /\ w <> 16 /\ w <> 32 /\ w <> 64).
Proof. lia. Qed.

(** X6.  On a live instruction and for every width, [load_type] and
    [store_type], and [float_op_type] for every width but 8, return the
    instruction they were called on, keep the tokens it had in their
    order and add at most one after them; nothing else in the builder
    changes. *)
Theorem suffix_methods_add_at_most_one_token (b : GCNBuilder) (this : nat)
    (i : GCNInstrCommon) (w : Z) (Hi : instrs b !! this = Some i) :
  (w <> 8 -> exists extra,
      (length extra <= 1)%nat
      /\ float_op_type this w b
         = Returned (this, withParts this (instrParts i ++ extra) b))
  /\ (exists extra,
      (length extra <= 1)%nat
      /\ load_type this w b
         = Returned (this, withParts this (instrParts i ++ extra) b))
  /\ (exists extra,
      (length extra <= 1)%nat
      /\ store_type this w b
         = Returned (this, withParts this (instrParts i ++ extra) b))
  /\ (forall parts,
      argArchive (withParts this parts b) = argArchive b
      /\ modArchive (withParts this parts b) = modArchive b
      /\ executions (withParts this parts b) = executions b
      /\ oprCounter (withParts this parts b) = oprCounter b
      /\ length (instrs (withParts this parts b)) = length (instrs b)
      /\ forall j, j <> this ->
           instrs (withParts this parts b) !! j = instrs b !! j).
Proof.
  split; [|split; [|split]].
  - intros H8.
    destruct (width_cases w) as [->|[->|[->|[->|(_ & H16 & H32 & H64)]]]];
      [done|..].
    + exists ["f16"]. split; [simpl; lia|].
      exact (GCNInstrFacts.o_then_this b this i "f16" Hi).
    + exists ["f32"]. split; [simpl; lia|].
      exact (GCNInstrFacts.o_then_this b this i "f32" Hi).
    + exists ["f64"]. split; [simpl; lia|].
      exact (GCNInstrFacts.o_then_this b this i "f64" Hi).
    + exists []. split; [simpl; lia|].
      rewrite <- (unchanged_withParts b this i Hi).
      destruct (GCNInstrFacts.width_not_recognised w H8 H16 H32 H64)
        as (E8 & E16 & E32 & E64).
      unfold float_op_type. by rewrite E8, E16, E32, E64.
  - destruct (width_cases w) as [->|[->|[->|[->|(H8 & H16 & H32 & H64)]]]].
    + exists ["ubyte"]. split; [simpl; lia|].
      exact (GCNInstrFacts.o_then_this b this i "ubyte" Hi).
    + exists ["ushort"]. split; [simpl; lia|].
      exact (GCNInstrFacts.o_then_this b this i "ushort" Hi).
    + exists ["dword"]. split; [simpl; lia|].
      exact (GCNInstrFacts.o_then_this b this i "dword" Hi).
    + exists ["dwordx2"]. split; [simpl; lia|].
      exact (GCNInstrFacts.o_then_this b this i "dwordx2" Hi).
    + exists []. split; [simpl; lia|].
      rewrite <- (unchanged_withParts b this i Hi).
      destruct (GCNInstrFacts.width_not_recognised w H8 H16 H32 H64)
        as (E8 & E16 & E32 & E64).
      unfold load_type. by rewrite E8, E16, E32, E64.
  - destruct (width_cases w) as [->|[->|[->|[->|(H8 & H16 & H32 & H64)]]]].
    + exists ["byte"]. split; [simpl; lia|].
      exact (GCNInstrFacts.o_then_this b this i "byte" Hi).
    + exists ["short"]. split; [simpl; lia|].
      exact (GCNInstrFacts.o_then_this b this i "short" Hi).
    + exists ["dword"]. split; [simpl; lia|].
      exact (GCNInstrFacts.o_then_this b this i "dword" Hi).
    + exists ["dwordx2"]. split; [simpl; lia|].
      exact (GCNInstrFacts.o_then_this b this i "dwordx2" Hi).
    + exists []. split; [simpl; lia|].
      rewrite <- (unchanged_withParts b this i Hi).
      destruct (GCNInstrFacts.width_not_recognised w H8 H16 H32 H64)
        as (E8 & E16 & E32 & E64).
      unfold store_type. by rewrite E8, E16, E32, E64.
  - intros parts. simpl. rewrite length_insert. repeat split.
    intros j Hj. by rewrite list_lookup_insert_ne.
Qed.

Lemma suffix_methods_add_at_most_one_token_witness :
  exists extra,
    (length extra <= 1)%nat
    /\ load_type 1%nat 16 twoInstrs
       = Returned (1%nat, withParts 1%nat (["global_load"] ++ extra) twoInstrs).
Proof.
  exact (proj1 (proj2
    (suffix_methods_add_at_most_one_token twoInstrs 1%nat
       {| instrParts := ["global_load"] |} 16 eq_refl))).
Defined.

Lemma withParts_inj (b : GCNBuilder) (this : nat) (i : GCNInstrCommon)
    (p q : list string) :
  instrs b !! this = Some i ->
  withParts this p b = withParts this q b -> p = q.
Proof.
  intros Hi Heq. apply (f_equal (fun x => instrs x !! this)) in Heq.
  rewrite !(GCNInstrFacts.withParts_lookup _ _ _ _ Hi) in Heq. congruence.
Qed.

(** X7.  On a live instruction [load_type] and [store_type] have the same
    effect exactly for the widths other than 8 and 16: they share the
    tokens for 32 and 64 and the silence for unknown widths, and differ
    only in the byte and short tokens. *)
Theorem load_and_store_differ_only_below_dword (b : GCNBuilder) (this : nat)
    (i : GCNInstrCommon) (w : Z) (Hi : instrs b !! this = Some i) :
  load_type this w b = store_type this w b <-> w <> 8 /\ w <> 16.
Proof.
  destruct (width_cases w) as [->|[->|[->|[->|(H8 & H16 & H32 & H64)]]]].
  - split; [|intros [? _]; done]. intros Heq. exfalso.
    change (load_type this 8 b)
      with (bind (bind (o this "ubyte" true) (fun _ => ret tt))
              (fun _ => ret this) b) in Heq.
    change (store_type this 8 b)
      with (bind (bind (o this "byte" true) (fun _ => ret tt))
              (fun _ => ret this) b) in Heq.
    rewrite !(GCNInstrFacts.o_then_this _ _ _ _ Hi) in Heq.
    assert (Hw : withParts this (instrParts i ++ ["ubyte"]) b
                 = withParts this (instrParts i ++ ["byte"]) b) by congruence.
    apply (withParts_inj _ _ _ _ _ Hi) in Hw.
    apply app_inv_head in Hw. discriminate.
  - split; [|intros [_ ?]; done]. intros Heq. exfalso.
    change (load_type this 16 b)
      with (bind (bind (o this "ushort" true) (fun _ => ret tt))
              (fun _ => ret this) b) in Heq.
    change (store_type this 16 b)
      with (bind (bind (o this "short" true) (fun _ => ret tt))
              (fun _ => ret this) b) in Heq.
    rewrite !(GCNInstrFacts.o_then_this _ _ _ _ Hi) in Heq.
    assert (Hw : withParts this (instrParts i ++ ["ushort"]) b
                 = withParts this (instrParts i ++ ["short"]) b) by congruence.
    apply (withParts_inj _ _ _ _ _ Hi) in Hw.
    apply app_inv_head in Hw. discriminate.
  - split; [intros _; lia | intros _; reflexivity].
  - split; [intros _; lia | intros _; reflexivity].
  - split; [intros _; done|]. intros _.
    destruct (GCNInstrFacts.width_not_recognised w H8 H16 H32 H64)
      as (E8 & E16 & E32 & E64).
    unfold load_type, store_type. by rewrite E8, E16, E32, E64.
Qed.

Lemma load_and_store_differ_only_below_dword_witness :
  load_type 1%nat 64 twoInstrs = store_type 1%nat 64 twoInstrs
  /\ load_type 1%nat 8 twoInstrs <> store_type 1%nat 8 twoInstrs.
Proof.
  split.
  - apply (load_and_store_differ_only_below_dword twoInstrs 1%nat
             {| instrParts := ["global_load"] |} 64 eq_refl). lia.
  - intros Heq.
    apply (load_and_store_differ_only_below_dword twoInstrs 1%nat
             {| instrParts := ["global_load"] |} 8 eq_refl) in Heq. lia.
Defined.

(** X8.  Suffix calls on two different instructions of one builder do not
    interfere: made in either order they leave the same builder, and each
    returns the instruction it was called on. *)
Theorem o_on_distinct_instructions_commutes (b : GCNBuilder) (i j : nat)
    (s t : string) (p q : bool) (Hij : i <> j) :
  exists b',
    bind (o i s p) (fun _ => o j t q) b = Returned (j, b')
    /\ bind (o j t q) (fun _ => o i s p) b = Returned (i, b').
Proof.
  destruct p, q; eexists; (split; [reflexivity|]);
    unfold o, bind, modify, ret, with_instrs; simpl; try reflexivity.
  do 3 f_equal. by apply list_alter_alter_ne.
Qed.

Lemma o_on_distinct_instructions_commutes_witness :
  exists b',
    bind (o 0%nat "f32" true) (fun _ => o 1%nat "dword" true) twoInstrs
      = Returned (1%nat, b')
    /\ bind (o 1%nat "dword" true) (fun _ => o 0%nat "f32" true) twoInstrs
      = Returned (0%nat, b').
Proof.
  refine (o_on_distinct_instructions_commutes twoInstrs 0%nat 1%nat
            "f32" "dword" true true _).
  discriminate.
Defined.

(** *** Populated list Operands *)

Lemma appendChild_frame (lst : nat) (child : Operand) (b : GCNBuilder) :
  modArchive (appendChild lst child b) = modArchive b
  /\ instrs (appendChild lst child b) = instrs b
  /\ executions (appendChild lst child b) = executions b
  /\ oprCounter (appendChild lst child b) = oprCounter b.
Proof. done. Qed.

Lemma fold_children {A} (mk : A -> Operand) (ops : list Operand)
    (items : list A) :
  forall (L : Operand) (kids : list Operand) (b0 : GCNBuilder),
    argArchive b0 = ops ++ L :: kids ->
    exists L',
      argArchive (fold_left (fun b' it => appendChild (length ops) (mk it) b')
                    items b0)
      = ops ++ L' :: (kids ++ (mk <$> items))
      /\ olist L' = olist L ++ seq (S (length ops) + length kids) (length items)
      /\ isList L' = isList L.
Proof.
  induction items as [|it items IH]; intros L kids b0 Hb0; simpl.
  - exists L. rewrite !app_nil_r. done.
  - destruct (IH (push_olist (length (argArchive b0)) L) (kids ++ [mk it])
                (appendChild (length ops) (mk it) b0)) as (L' & Harch & Hl & Hi).
    { unfold appendChild. simpl. rewrite Hb0.
      rewrite <- app_assoc. simpl.
      rewrite alter_app_r_alt by lia. rewrite Nat.sub_diag. simpl.
      reflexivity. }
    exists L'. split; [|split].
    + rewrite Harch. by rewrite <- app_assoc.
    + rewrite Hl. simpl olist. rewrite <- app_assoc. f_equal.
      rewrite Hb0, !length_app. simpl.
      replace (length ops + S (length kids))%nat
        with (S (length ops + length kids)) by lia.
      replace (length ops + (length kids + 1))%nat
        with (S (length ops + length kids)) by lia.
      reflexivity.
    + by rewrite Hi.
Qed.

Lemma fold_children_frame {A} (mk : A -> Operand) (lst : nat) (items : list A) :
  forall b0,
    let b' := fold_left (fun b' it => appendChild lst (mk it) b') items b0 in
    modArchive b' = modArchive b0 /\ instrs b' = instrs b0
    /\ executions b' = executions b0 /\ oprCounter b' = oprCounter b0.
Proof.
  induction items as [|it items IH]; intros b0; simpl; [done|].
  destruct (IH (appendChild lst (mk it) b0)) as (? & ? & ? & ?).
  simpl in *. done.
Qed.

Lemma populated_list {A} (mk : A -> Operand) (items : list A)
    (r : B nat) (b : GCNBuilder) :
  r b = Returned (length (argArchive b),
      fold_left (fun b' it => appendChild (length (argArchive b)) (mk it) b')
        items (with_argArchive (fun l => l ++ [Operand_default]) b)) ->
  exists b',
    r b = Returned (length (argArchive b), b')
    /\ listOfChildren b b' (mk <$> items).
Proof.
  intros Hr. eexists. split; [exact Hr|].
  destruct (fold_children mk (argArchive b) items Operand_default []
              (with_argArchive (fun l => l ++ [Operand_default]) b) eq_refl)
    as (L & Harch & Hl & Hi).
  destruct (fold_children_frame mk (length (argArchive b)) items
              (with_argArchive (fun l => l ++ [Operand_default]) b))
    as (Hm & Hin & He & Hc).
  exists L. split; [exact Harch|]. split.
  - rewrite Hl. simpl. rewrite length_fmap. f_equal. lia.
  - split; [by rewrite Hi|]. done.
Qed.

Lemma fmap_const_seq {A} (x : A) (count : nat) :
  forall s, ((fun _ : nat => x) <$> seq s count) = replicate count x.
Proof.
  induction count as [|n IH]; intros s; [done|].
  simpl. by rewrite IH.
Qed.

(** X19.  With [newOperand] archiving one Operand per call (its body is
    modelled from the spec), each populating overload of [newListOperand]
    returns a new list Operand archived right after the Operands already
    there, followed by one child per item, or [count] equal children, in
    order; the list names exactly these children by their positions, is a
    list for [isList()], and nothing that was in the builder changes. *)
Theorem newListOperand_archives_list_then_children (b : GCNBuilder) :
  (forall items, exists b',
      newListOperandItems items b = Returned (length (argArchive b), b')
      /\ listOfChildren b b'
           ((fun it => Operand_bound (fst it) (snd it)) <$> items))
  /\ (forall count v c, exists b',
      newListOperandVal count v c b = Returned (length (argArchive b), b')
      /\ listOfChildren b b' (replicate count (Operand_bound v c)))
  /\ (forall count c, exists b',
      newListOperandOut count c b = Returned (length (argArchive b), b')
      /\ listOfChildren b b'
           (replicate count (set_constraint c Operand_default))).
Proof.
  split; [|split].
  - intros items.
    apply (populated_list (fun it => Operand_bound (fst it) (snd it))).
    apply GCNOperandFacts.newListOperandItems_run.
  - intros count v c.
    rewrite <- (fmap_const_seq (Operand_bound v c) count 0).
    apply (populated_list (fun _ : nat => Operand_bound v c)).
    apply GCNOperandFacts.newListOperandVal_run.
  - intros count c.
    rewrite <- (fmap_const_seq (set_constraint c Operand_default) count 0).
    apply (populated_list (fun _ : nat => set_constraint c Operand_default)).
    apply GCNOperandFacts.newListOperandOut_run.
Qed.

End GCNMoreFacts.

(** ** The code-generation pipeline (HSACOTranslation.cpp) *)

Module HSACOFacts.
Import HSACO.

Section Facts.

Context {IR Target : Type}.
Variable verify : Module IR -> Verdict.
Variable lookupTarget : list string -> string -> Target + string.
Variable createDataLayout : TargetMachine Target -> string.
Variable emitFile :
  TargetMachine Target -> CodeGenFileType -> Module IR -> Module IR * string.
Variable tmpnam : nat -> string.
Variable openError : FileSystem -> string -> option error_code.
Variable badDescriptorMessage : string.
Variable ExecuteAndWait :
  string -> list string -> FileSystem -> Z * string * FileSystem.
Variable getBoolEnv : string -> bool.

Abbreviation verifierFindsBroken := (verifierFindsBroken IR verify).
Abbreviation initialize_module :=
  (initialize_module IR Target verify lookupTarget createDataLayout).
Abbreviation generate_amdgcn_assembly :=
  (generate_amdgcn_assembly IR Target verify lookupTarget createDataLayout
     emitFile getBoolEnv).
Abbreviation generate_hsaco :=
  (generate_hsaco IR Target verify lookupTarget createDataLayout emitFile
     tmpnam openError badDescriptorMessage ExecuteAndWait).
Abbreviation llir_to_amdgcn_and_hsaco :=
  (llir_to_amdgcn_and_hsaco IR Target verify lookupTarget createDataLayout
     emitFile tmpnam openError badDescriptorMessage ExecuteAndWait getBoolEnv).
Abbreviation translateLLVMIRToHSACO :=
  (translateLLVMIRToHSACO IR Target verify lookupTarget createDataLayout
     emitFile tmpnam openError badDescriptorMessage ExecuteAndWait getBoolEnv).
Abbreviation configured := (configured IR Target createDataLayout).

(** The registry once [init_llvm] has run. *)
Abbreviation registered r :=
  (r ++ ["AMDGPUTarget"; "AMDGPUTargetInfo"; "AMDGPUTargetMC";
         "AMDGPUAsmParser"; "AMDGPUAsmPrinter"]) (only parsing).

Ltac run_pipeline :=
  unfold HSACO.llir_to_amdgcn_and_hsaco, HSACO.generate_hsaco,
    HSACO.generate_amdgcn_assembly, HSACO.initialize_module, HSACO.CloneModule,
    HSACO.init_llvm, next_tmpnam, load, store, cout, bind, get, put, modify,
    ret, abort;
  simpl.

Lemma verified (m : Module IR) :
  verifierFindsBroken m = false -> verify m = Verified.
Proof. unfold HSACO.verifierFindsBroken. by destruct (verify m). Qed.

Lemma initialize_module_unresolved (w : World IR) (module : nat) (m : Module IR)
    (triple proc features error : string) :
  heap w !! module = Some m ->
  verifierFindsBroken m = false ->
  lookupTarget (registry w) triple = inr error ->
  initialize_module module triple proc features w = NullDeref.
Proof.
  intros Hm Hv Hl. run_pipeline. rewrite Hm, (verified m Hv). simpl.
  rewrite list_lookup_insert_eq by (by eapply lookup_lt_Some). simpl.
  by rewrite Hl.
Qed.

Lemma initialize_module_resolved (w : World IR) (module : nat) (m : Module IR)
    (triple proc features : string) (target : Target) :
  heap w !! module = Some m ->
  verifierFindsBroken m = false ->
  lookupTarget (registry w) triple = inl target ->
  initialize_module module triple proc features w
  = Returned (machineFor target triple proc features,
      with_heap (fun h =>
        <[module := configured (machineFor target triple proc features) triple m]> h)
        w).
Proof.
  intros Hm Hv Hl. run_pipeline. rewrite Hm, (verified m Hv). simpl.
  rewrite list_lookup_insert_eq by (by eapply lookup_lt_Some). simpl.
  rewrite Hl. unfold with_heap. simpl.
  rewrite list_lookup_insert_eq
    by (rewrite ?length_insert; by eapply lookup_lt_Some).
  simpl. rewrite !list_insert_insert_eq. reflexivity.
Qed.

Lemma initialize_module_broken (w : World IR) (module : nat) (m : Module IR)
    (triple proc features : string) :
  heap w !! module = Some m ->
  verifierFindsBroken m = true ->
  initialize_module module triple proc features w
  = FatalError match verify m with
               | BrokenFunction => "Broken function found, compilation aborted!"
               | _ => "Broken module found, compilation aborted!"
               end.
Proof.
  intros Hm Hv. run_pipeline. rewrite Hm.
  unfold HSACO.verifierFindsBroken in Hv. by destruct (verify m).
Qed.

Lemma bind_Returned {S A B} (m : M S A) (k : A -> M S B) (s s' : S) (a : A) :
  m s = Returned (a, s') -> bind m k s = k a s'.
Proof. intros H. unfold bind. by rewrite H. Qed.

Lemma bind_NullDeref {S A B} (m : M S A) (k : A -> M S B) (s : S) :
  m s = NullDeref -> bind m k s = NullDeref.
Proof. intros H. unfold bind. by rewrite H. Qed.

Lemma bind_FatalError {S A B} (m : M S A) (k : A -> M S B) (s : S)
    (msg : string) :
  m s = FatalError msg -> bind m k s = FatalError msg.
Proof. intros H. unfold bind. by rewrite H. Qed.

Lemma append_assoc (a b c : string) : (a +:+ b) +:+ c = a +:+ (b +:+ c).
Proof.
  induction a as [|x a IH]; [done|].
  change (String x ((a +:+ b) +:+ c) = String x (a +:+ (b +:+ c))).
  by f_equal.
Qed.

(** What [generate_hsaco] does on a verified module whose triple resolves:
    the stream error decides between the fatal error at the exit and the
    return of the path. *)
Lemma generate_hsaco_run (w : World IR) (module : nat) (m : Module IR)
    (triple proc features : string) (target : Target) :
  heap w !! module = Some m ->
  verifierFindsBroken m = false ->
  lookupTarget (registry w) triple = inl target ->
  let machine := machineFor target triple proc features in
  let emitted := emitFile machine CGFT_ObjectFile (configured machine triple m) in
  let kernel_name := tmpnam (tmpnamCalls w) +:+ "_" +:+ moduleIdentifier m in
  let before := outputBeforeLink openError w (kernel_name +:+ ".o") (snd emitted) in
  let linked :=
    ExecuteAndWait ld_lld
      (linkerArgs (kernel_name +:+ ".hsaco") (kernel_name +:+ ".o"))
      (snd before) in
  generate_hsaco module triple proc features w
  = if match openError (files w) (kernel_name +:+ ".o") with
       | Some _ => negb (bool_decide (snd emitted = ""))
       | None => false
       end
    then FatalError ("IO failure on output stream: " +:+ badDescriptorMessage)
    else Returned (kernel_name +:+ ".hsaco",
      {| heap := <[module := fst emitted]> (heap w);
         registry := registry w;
         stdout := if fst (fst linked) =? 0 then fst before
                   else fst before
                        +:+ linkerReport (fst (fst linked)) (snd (fst linked));
         files := snd linked;
         tmpnamCalls := S (tmpnamCalls w) |}).
Proof.
  intros Hm Hv Hl machine emitted kernel_name before linked.
  unfold HSACO.generate_hsaco.
  rewrite (bind_Returned _ _ _ _ _
             (initialize_module_resolved w module m triple proc features
                target Hm Hv Hl)).
  fold machine.
  assert (Hlt : (module < length (heap w))%nat) by (by eapply lookup_lt_Some).
  unfold next_tmpnam, load, store, cout, bind, get, put, modify, ret, abort,
    with_files, with_heap.
  simpl. rewrite list_lookup_insert_eq by done. simpl.
  fold kernel_name.
  subst linked before. unfold outputBeforeLink, linkerArgs.
  destruct (openError (files w) (kernel_name +:+ ".o")) as [e|] eqn:Hopen;
    simpl; fold emitted;
    [destruct (bool_decide (snd emitted = "")); simpl|];
    destruct (fst (fst (ExecuteAndWait _ _ _)) =? 0) eqn:Hcode; simpl;
    rewrite ?list_insert_insert_eq; unfold linkerReport;
    rewrite ?append_assoc; reflexivity.
Qed.

Lemma generate_hsaco_opened (w : World IR) (module : nat) (m : Module IR)
    (triple proc features : string) (target : Target) :
  heap w !! module = Some m ->
  verifierFindsBroken m = false ->
  lookupTarget (registry w) triple = inl target ->
  let machine := machineFor target triple proc features in
  let emitted := emitFile machine CGFT_ObjectFile (configured machine triple m) in
  let kernel_name := tmpnam (tmpnamCalls w) +:+ "_" +:+ moduleIdentifier m in
  let linked :=
    ExecuteAndWait ld_lld
      (linkerArgs (kernel_name +:+ ".hsaco") (kernel_name +:+ ".o"))
      (writeFile (kernel_name +:+ ".o") (snd emitted)
         (writeFile (kernel_name +:+ ".o") "" (files w))) in
  openError (files w) (kernel_name +:+ ".o") = None ->
  generate_hsaco module triple proc features w
  = Returned (kernel_name +:+ ".hsaco",
      {| heap := <[module := fst emitted]> (heap w);
         registry := registry w;
         stdout := if fst (fst linked) =? 0 then stdout w
                   else stdout w
                        +:+ linkerReport (fst (fst linked)) (snd (fst linked));
         files := snd linked;
         tmpnamCalls := S (tmpnamCalls w) |}).
Proof.
  intros Hm Hv Hl machine emitted kernel_name linked Ho.
  pose proof (generate_hsaco_run w module m triple proc features target
                Hm Hv Hl) as Hrun.
  cbv zeta in Hrun. fold machine emitted kernel_name in Hrun.
  unfold outputBeforeLink in Hrun. rewrite Ho in Hrun. exact Hrun.
Qed.


Lemma generate_amdgcn_assembly_run (w : World IR) (module : nat) (m : Module IR)
    (triple proc features : string) (target : Target) :
  heap w !! module = Some m ->
  verifierFindsBroken m = false ->
  lookupTarget (registry w) triple = inl target ->
  let machine := machineFor target triple proc features in
  let emitted :=
    emitFile machine CGFT_AssemblyFile (configured machine triple m) in
  generate_amdgcn_assembly module triple proc features w
  = Returned (snd emitted,
      {| heap := <[module := fst emitted]> (heap w);
         registry := registry w;
         stdout := if getBoolEnv "AMDGCN_ENABLE_DUMP"
                   then stdout w +:+ ("// -----// AMDGCN Dump //----- //" +:+
                                      endl +:+ snd emitted +:+ endl)
                   else stdout w;
         files := files w;
         tmpnamCalls := tmpnamCalls w |}).
Proof.
  intros Hm Hv Hl machine emitted.
  unfold HSACO.generate_amdgcn_assembly.
  rewrite (bind_Returned _ _ _ _ _
             (initialize_module_resolved w module m triple proc features
                target Hm Hv Hl)).
  fold machine.
  assert (Hlt : (module < length (heap w))%nat) by (by eapply lookup_lt_Some).
  unfold load, store, cout, bind, get, put, modify, ret, abort, with_heap.
  simpl. rewrite list_lookup_insert_eq by done. simpl. fold emitted.
  destruct (getBoolEnv "AMDGCN_ENABLE_DUMP"); simpl;
    rewrite list_insert_insert_eq; reflexivity.
Qed.

Lemma translate_is_llir (module : nat) (cc : string) (w : World IR) :
  translateLLVMIRToHSACO module cc w = llir_to_amdgcn_and_hsaco module cc w.
Proof.
  unfold HSACO.translateLLVMIRToHSACO, bind, ret.
  by destruct (llir_to_amdgcn_and_hsaco module cc w) as [[? ?]| | |].
Qed.

(** The translation up to the call of [generate_hsaco]: the backends are
    registered, the clone is the last module of the process and the
    assembly stage has lowered the original. *)
Lemma llir_after_assembly (w : World IR) (module : nat) (m : Module IR)
    (cc : string) (target : Target) :
  heap w !! module = Some m ->
  verifierFindsBroken m = false ->
  lookupTarget (registered (registry w)) "amdgcn-amd-amdhsa" = inl target ->
  let machine := machineFor target "amdgcn-amd-amdhsa" cc "+sramecc,-xnack" in
  let assembly :=
    emitFile machine CGFT_AssemblyFile
      (configured machine "amdgcn-amd-amdhsa" m) in
  let w2 :=
    {| heap := <[module := fst assembly]> (heap w ++ [m]);
       registry := registered (registry w);
       stdout := if getBoolEnv "AMDGCN_ENABLE_DUMP"
                 then stdout w +:+ ("// -----// AMDGCN Dump //----- //" +:+
                                    endl +:+ snd assembly +:+ endl)
                 else stdout w;
       files := files w;
       tmpnamCalls := tmpnamCalls w |} in
  llir_to_amdgcn_and_hsaco module cc w
  = bind (generate_hsaco (length (heap w)) "amdgcn-amd-amdhsa" cc
            "+sramecc,-xnack")
      (fun hsaco_path => ret (snd assembly, hsaco_path)) w2
  /\ heap w2 !! length (heap w) = Some m.
Proof.
  intros Hm Hv Hl machine assembly w2.
  assert (Hlt : (module < length (heap w))%nat) by (by eapply lookup_lt_Some).
  set (w0 := with_registry (fun r => registered r) w).
  set (w1 := with_heap (fun h => h ++ [m]) w0).
  assert (Hm1 : heap w1 !! module = Some m).
  { subst w1. simpl. by rewrite lookup_app_l. }
  pose proof (generate_amdgcn_assembly_run w1 module m "amdgcn-amd-amdhsa" cc
                "+sramecc,-xnack" target Hm1 Hv Hl) as Hasm.
  cbv zeta in Hasm. fold machine assembly in Hasm.
  split.
  - unfold HSACO.llir_to_amdgcn_and_hsaco.
    rewrite (bind_Returned _ _ w w0 tt) by reflexivity.
    rewrite (bind_Returned _ _ w0 w1 (length (heap w))).
    2: { unfold CloneModule, load, bind, get, modify, ret. simpl. by rewrite Hm. }
    rewrite (bind_Returned _ _ _ _ _ Hasm).
    reflexivity.
  - subst w2. simpl. rewrite list_lookup_insert_ne by lia.
    rewrite lookup_app_r by lia. by rewrite Nat.sub_diag.
Qed.

Lemma llir_before_assembly (w : World IR) (module : nat) (m : Module IR)
    (cc : string) :
  heap w !! module = Some m ->
  let w1 :=
    with_heap (fun h => h ++ [m]) (with_registry (fun r => registered r) w) in
  llir_to_amdgcn_and_hsaco module cc w
  = bind (generate_amdgcn_assembly module "amdgcn-amd-amdhsa" cc
            "+sramecc,-xnack")
      (fun amdgcn =>
         bind (generate_hsaco (length (heap w)) "amdgcn-amd-amdhsa" cc
                 "+sramecc,-xnack")
           (fun hsaco_path => ret (amdgcn, hsaco_path))) w1
  /\ heap w1 !! module = Some m.
Proof.
  intros Hm w1. split.
  - unfold HSACO.llir_to_amdgcn_and_hsaco.
    rewrite (bind_Returned _ _ w (with_registry (fun r => registered r) w) tt)
      by reflexivity.
    rewrite (bind_Returned _ _ _ w1 (length (heap w))); [reflexivity|].
    unfold CloneModule, load, bind, get, modify, ret. simpl. by rewrite Hm.
  - subst w1. simpl. rewrite lookup_app_l; [done|]. by eapply lookup_lt_Some.
Qed.

Lemma llir_null (w : World IR) (module : nat) (cc : string) :
  heap w !! module = None ->
  llir_to_amdgcn_and_hsaco module cc w = NullDeref.
Proof. intros Hm. run_pipeline. by rewrite Hm. Qed.

Lemma llir_broken (w : World IR) (module : nat) (m : Module IR) (cc : string) :
  heap w !! module = Some m ->
  verifierFindsBroken m = true ->
  llir_to_amdgcn_and_hsaco module cc w
  = FatalError match verify m with
               | BrokenFunction => "Broken function found, compilation aborted!"
               | _ => "Broken module found, compilation aborted!"
               end.
Proof.
  intros Hm Hv.
  destruct (llir_before_assembly w module m cc Hm) as [-> Hm1].
  apply bind_FatalError. unfold HSACO.generate_amdgcn_assembly.
  apply bind_FatalError. by apply initialize_module_broken.
Qed.

Lemma llir_unresolved (w : World IR) (module : nat) (m : Module IR)
    (cc error : string) :
  heap w !! module = Some m ->
  verifierFindsBroken m = false ->
  lookupTarget (registered (registry w)) "amdgcn-amd-amdhsa" = inr error ->
  llir_to_amdgcn_and_hsaco module cc w = NullDeref.
Proof.
  intros Hm Hv Hl.
  destruct (llir_before_assembly w module m cc Hm) as [-> Hm1].
  apply bind_NullDeref. unfold HSACO.generate_amdgcn_assembly.
  apply bind_NullDeref.
  by apply (initialize_module_unresolved _ module m _ _ _ error).
Qed.



(** C9.  [llir_to_amdgcn_and_hsaco] clones the module before any emission;
    the assembly branch lowers the original, the object branch lowers the
    clone, and each starts from the module as it was handed in: the clone
    ends as the object lowering of the configured input, not of what
    assembly emission left behind, and the original ends as the assembly
    lowering alone.  When the object file could be created, the pair
    returned is the assembly text of the former and the hsaco path of the
    latter. *)
Theorem emission_branches_are_independent (w : World IR) (module : nat)
    (m : Module IR) (cc : string) (target : Target)
    (Hm : heap w !! module = Some m)
    (Hv : verifierFindsBroken m = false)
    (Hl : lookupTarget
            (registry w ++ ["AMDGPUTarget"; "AMDGPUTargetInfo"; "AMDGPUTargetMC";
                            "AMDGPUAsmParser"; "AMDGPUAsmPrinter"])
            "amdgcn-amd-amdhsa" = inl target)
    (Ho : openError (files w)
            ((tmpnam (tmpnamCalls w) +:+ "_" +:+ moduleIdentifier m) +:+ ".o")
          = None) :
  let machine := machineFor target "amdgcn-amd-amdhsa" cc "+sramecc,-xnack" in
  let input := configured machine "amdgcn-amd-amdhsa" m in
  let assembly := emitFile machine CGFT_AssemblyFile input in
  let object := emitFile machine CGFT_ObjectFile input in
  exists w',
    llir_to_amdgcn_and_hsaco module cc w
    = Returned ((snd assembly,
                 (tmpnam (tmpnamCalls w) +:+ "_" +:+ moduleIdentifier m)
                 +:+ ".hsaco"), w')
    /\ heap w' = <[module := fst assembly]> (heap w) ++ [fst object].
Proof.
  intros machine input assembly object.
  assert (Hlt : (module < length (heap w))%nat) by (by eapply lookup_lt_Some).
  destruct (llir_after_assembly w module m cc target Hm Hv Hl) as [Hrun Hm2].
  cbv zeta in Hrun, Hm2. fold machine input assembly in Hrun, Hm2.
  match type of Hm2 with heap ?w2' !! _ = _ => set (w2 := w2') in * end.
  pose proof (generate_hsaco_opened w2 (length (heap w)) m "amdgcn-amd-amdhsa"
                cc "+sramecc,-xnack" target Hm2 Hv Hl Ho) as Hobj.
  cbv zeta in Hobj. fold machine input object in Hobj.
  eexists. split.
  - rewrite Hrun. rewrite (bind_Returned _ _ _ _ _ Hobj). reflexivity.
  - simpl. rewrite insert_app_l by done.
    replace (length (heap w))
      with (length (<[module := fst assembly]> (heap w)) + 0)%nat
      at 1 by (rewrite length_insert; lia).
    by rewrite insert_app_r.
Qed.

(** *** Further properties of the pipeline *)

(** X9.  A module the verifier finds broken stops every stage with the
    verifier's fatal error, before the target is looked up: the text names
    a broken function when the defect is inside a function body and a
    broken module otherwise.  No stage returns assembly text or a path,
    and this holds for the whole translation and its public entry as well,
    since the clone is as broken as the original. *)
Theorem broken_module_is_fatal (w : World IR) (module : nat) (m : Module IR)
    (triple proc features cc : string)
    (Hm : heap w !! module = Some m)
    (Hv : verifierFindsBroken m = true) :
  let text :=
    match verify m with
    | BrokenFunction => "Broken function found, compilation aborted!"
    | _ => "Broken module found, compilation aborted!"
    end in
  initialize_module module triple proc features w = FatalError text
  /\ generate_amdgcn_assembly module triple proc features w = FatalError text
  /\ generate_hsaco module triple proc features w = FatalError text
  /\ llir_to_amdgcn_and_hsaco module cc w = FatalError text
  /\ translateLLVMIRToHSACO module cc w = FatalError text.
Proof.
  intros text.
  pose proof (initialize_module_broken w module m triple proc features Hm Hv)
    as Hinit.
  pose proof (llir_broken w module m cc Hm Hv) as Hllir.
  split; [exact Hinit|]. split; [|split; [|split]].
  - unfold HSACO.generate_amdgcn_assembly. by apply bind_FatalError.
  - unfold HSACO.generate_hsaco. by apply bind_FatalError.
  - exact Hllir.
  - by rewrite translate_is_llir.
Qed.
Lemma hasFnAttr_addFnAttr (a : FnAttr) (f : Function) :
  hasFnAttr a (addFnAttr a f) = true.
Proof.
  unfold addFnAttr. destruct (hasFnAttr a f) eqn:Hf; [done|].
  unfold hasFnAttr. simpl. rewrite existsb_app. simpl.
  destruct a; simpl; [by rewrite orb_true_r|].
  rewrite bool_decide_true by done. by rewrite !orb_true_r.
Qed.

Lemma addFnAttr_idem (a : FnAttr) (f : Function) :
  addFnAttr a (addFnAttr a f) = addFnAttr a f.
Proof.
  unfold addFnAttr at 1. by rewrite hasFnAttr_addFnAttr.
Qed.

Lemma addFnAttr_keeps (a : FnAttr) (f : Function) :
  fnName (addFnAttr a f) = fnName f
  /\ fnAttrs f `prefix_of` fnAttrs (addFnAttr a f).
Proof.
  unfold addFnAttr. destruct (hasFnAttr a f); simpl.
  - split; [done|]. reflexivity.
  - split; [done|]. by apply prefix_app_r.
Qed.

Lemma addFnAttr_names (a : FnAttr) (l : list Function) :
  (fnName <$> (addFnAttr a <$> l)) = (fnName <$> l).
Proof.
  induction l as [|f l IH]; [done|].
  rewrite !fmap_cons, IH. f_equal. apply addFnAttr_keeps.
Qed.

Lemma addFnAttr_all_idem (a : FnAttr) (l : list Function) :
  (addFnAttr a <$> (addFnAttr a <$> l)) = (addFnAttr a <$> l).
Proof.
  induction l as [|f l IH]; [done|].
  by rewrite !fmap_cons, IH, addFnAttr_idem.
Qed.

(** X10.  After a successful [initialize_module] the module carries the
    requested triple and the machine's data layout, keeps its identifier,
    its body and its functions by name and order, every function has
    [AlwaysInline] and still has all the attributes it had; the machine is
    built for the triple, processor and features passed in, with PIC
    relocation and aggressive optimisation; no other module, no file and
    nothing on standard output changes. *)
Theorem initialize_module_configures_in_place (w : World IR) (module : nat)
    (m : Module IR) (triple proc features : string) (target : Target)
    (Hm : heap w !! module = Some m)
    (Hv : verifierFindsBroken m = false)
    (Hl : lookupTarget (registry w) triple = inl target) :
  exists machine w' m',
    initialize_module module triple proc features w = Returned (machine, w')
    /\ heap w' !! module = Some m'
    /\ (tmTarget machine = target /\ tmTriple machine = triple
        /\ tmCPU machine = proc /\ tmFeatures machine = features
        /\ tmReloc machine = Reloc_PIC
        /\ tmOptLevel machine = CodeGenOpt_Aggressive)
    /\ (targetTriple m' = triple
        /\ dataLayout m' = createDataLayout machine
        /\ moduleIdentifier m' = moduleIdentifier m /\ body m' = body m)
    /\ (fnName <$> functions m') = (fnName <$> functions m)
    /\ (forall f, f ∈ functions m' -> hasFnAttr AlwaysInline f = true)
    /\ (forall k f f', functions m !! k = Some f -> functions m' !! k = Some f' ->
          fnAttrs f `prefix_of` fnAttrs f')
    /\ (forall other, other <> module -> heap w' !! other = heap w !! other)
    /\ length (heap w') = length (heap w)
    /\ registry w' = registry w /\ stdout w' = stdout w
    /\ files w' = files w /\ tmpnamCalls w' = tmpnamCalls w.
Proof.
  eexists _, _, _. split.
  { exact (initialize_module_resolved w module m triple proc features target
             Hm Hv Hl). }
  simpl. split.
  { apply list_lookup_insert_eq. by eapply lookup_lt_Some. }
  split; [done|]. split; [done|]. split.
  { apply addFnAttr_names. }
  split.
  { intros f Hf. apply list_elem_of_fmap in Hf as (f0 & -> & _).
    apply hasFnAttr_addFnAttr. }
  split.
  { intros k f f' Hf Hf'.
    pose proof (list_lookup_fmap (addFnAttr AlwaysInline) (functions m) k)
      as Hk.
    rewrite Hf in Hk. simpl in Hk.
    assert (Heq : Some f' = Some (addFnAttr AlwaysInline f)).
    { rewrite <- Hf'. exact Hk. }
    injection Heq as ->. apply addFnAttr_keeps. }
  split.
  { intros other Hne. by rewrite list_lookup_insert_ne. }
  split; [by rewrite length_insert | done].
Qed.

Lemma configured_idem (machine : TargetMachine Target) (triple : string)
    (m : Module IR) :
  configured machine triple (configured machine triple m)
  = configured machine triple m.
Proof.
  unfold HSACO.configured, mapFunctions, setDataLayout, setTargetTriple.
  simpl. f_equal. apply addFnAttr_all_idem.
Qed.

(** X11.  Configuring is idempotent: when the configured module still
    verifies, a second [initialize_module] with the same arguments returns
    the same machine and leaves the whole process as the first call left
    it. *)
Theorem initialize_module_twice_is_once (w : World IR) (module : nat)
    (m : Module IR) (triple proc features : string) (target : Target)
    (Hm : heap w !! module = Some m)
    (Hv : verifierFindsBroken m = false)
    (Hl : lookupTarget (registry w) triple = inl target)
    (Hv' : verifierFindsBroken
             (configured (machineFor target triple proc features) triple m)
           = false) :
  exists machine w',
    initialize_module module triple proc features w = Returned (machine, w')
    /\ initialize_module module triple proc features w' = Returned (machine, w').
Proof.
  eexists _, _. split.
  { exact (initialize_module_resolved w module m triple proc features target
             Hm Hv Hl). }
  set (mc := configured (machineFor target triple proc features) triple m).
  set (w' := with_heap (fun h => <[module := mc]> h) w).
  assert (Hm' : heap w' !! module = Some mc).
  { subst w'. simpl. apply list_lookup_insert_eq. by eapply lookup_lt_Some. }
  rewrite (initialize_module_resolved w' module mc triple proc features target
             Hm' Hv' Hl).
  do 2 f_equal. subst w' mc. unfold with_heap. simpl. f_equal.
  rewrite configured_idem. apply list_insert_insert_eq.
Qed.

(** X12.  On a verified module with a resolvable triple the assembly stage
    returns the emitted text and leaves the lowered module in place; it
    creates no file, takes no temporary name and registers nothing; it
    prints the dump banner and the text when AMDGCN_ENABLE_DUMP is set and
    nothing otherwise, and what it returns does not depend on that
    setting. *)
Theorem assembly_stage_prints_only_on_request (w : World IR) (module : nat)
    (m : Module IR) (triple proc features : string) (target : Target)
    (Hm : heap w !! module = Some m)
    (Hv : verifierFindsBroken m = false)
    (Hl : lookupTarget (registry w) triple = inl target) :
  let machine := machineFor target triple proc features in
  let emitted :=
    emitFile machine CGFT_AssemblyFile (configured machine triple m) in
  exists w',
    generate_amdgcn_assembly module triple proc features w
    = Returned (snd emitted, w')
    /\ heap w' = <[module := fst emitted]> (heap w)
    /\ files w' = files w /\ tmpnamCalls w' = tmpnamCalls w
    /\ registry w' = registry w
    /\ (getBoolEnv "AMDGCN_ENABLE_DUMP" = false -> stdout w' = stdout w)
    /\ (getBoolEnv "AMDGCN_ENABLE_DUMP" = true ->
        stdout w' = stdout w +:+ ("// -----// AMDGCN Dump //----- //" +:+ endl
                                  +:+ snd emitted +:+ endl)).
Proof.
  intros machine emitted. eexists. split.
  { exact (generate_amdgcn_assembly_run w module m triple proc features target
             Hm Hv Hl). }
  simpl. fold machine emitted. do 4 (split; [done|]).
  split; intros ->; reflexivity.
Qed.

Lemma readFile_writeFile (fs : FileSystem) (path content : string) :
  readFile (writeFile path content fs) path = Some content.
Proof.
  unfold readFile, writeFile. simpl. by rewrite bool_decide_true.
Qed.

Lemma readFile_writeFile_other (fs : FileSystem) (path other content : string) :
  other <> path ->
  readFile (writeFile path content fs) other = readFile fs other.
Proof.
  intros Hne. unfold readFile, writeFile. simpl.
  by rewrite bool_decide_false by congruence.
Qed.


(** X14.  When the object file can be opened, the linker is started on a
    file system in which the object path holds the emitted object and
    every other path holds what it held before; the files the linker
    leaves are the files of the process afterwards. *)
Theorem linker_sees_the_emitted_object (w : World IR) (module : nat)
    (m : Module IR) (triple proc features : string) (target : Target)
    (Hm : heap w !! module = Some m)
    (Hv : verifierFindsBroken m = false)
    (Hl : lookupTarget (registry w) triple = inl target)
    (Ho : openError (files w)
            ((tmpnam (tmpnamCalls w) +:+ "_" +:+ moduleIdentifier m) +:+ ".o")
          = None) :
  let machine := machineFor target triple proc features in
  let emitted := emitFile machine CGFT_ObjectFile (configured machine triple m) in
  let kernel_name := tmpnam (tmpnamCalls w) +:+ "_" +:+ moduleIdentifier m in
  exists fs w',
    generate_hsaco module triple proc features w
    = Returned (kernel_name +:+ ".hsaco", w')
    /\ files w'
       = snd (ExecuteAndWait ld_lld
                (linkerArgs (kernel_name +:+ ".hsaco") (kernel_name +:+ ".o"))
                fs)
    /\ readFile fs (kernel_name +:+ ".o") = Some (snd emitted)
    /\ (forall other, other <> kernel_name +:+ ".o" ->
          readFile fs other = readFile (files w) other).
Proof.
  intros machine emitted kernel_name.
  pose proof (generate_hsaco_opened w module m triple proc features target
                Hm Hv Hl Ho) as Hrun.
  cbv zeta in Hrun. fold machine emitted kernel_name in Hrun.
  eexists _, _. split; [exact Hrun|]. simpl. split; [reflexivity|]. split.
  - apply readFile_writeFile.
  - intros other Hne. by rewrite !readFile_writeFile_other.
Qed.

Lemma string_app_inv_tail (a b s : string) : a +:+ s = b +:+ s -> a = b.
Proof.
  revert b. induction a as [|c a IH]; intros b Heq.
  - destruct b as [|d b]; [done|]. exfalso.
    apply (f_equal String.length) in Heq.
    change (String.length s = String.length (String d (b +:+ s))) in Heq.
    simpl in Heq. rewrite GCNMoreFacts.string_length_app in Heq. lia.
  - destruct b as [|d b].
    + exfalso. apply (f_equal String.length) in Heq.
      change (String.length (String c (a +:+ s)) = String.length s) in Heq.
      simpl in Heq. rewrite GCNMoreFacts.string_length_app in Heq. lia.
    + change (String c (a +:+ s) = String d (b +:+ s)) in Heq.
      injection Heq as -> Heq. f_equal. by apply IH.
Qed.

(** X15.  Each [generate_hsaco] takes exactly one temporary name: two runs
    in a row, on two modules of the process, each with its object file
    created, build their paths from two successive names, and when the
    modules have the same identifier and the two names differ, the two
    output paths differ. *)
Theorem successive_runs_take_successive_names (w : World IR)
    (module1 module2 : nat) (m1 m2 : Module IR)
    (triple proc features : string) (target : Target)
    (Hne : module1 <> module2)
    (Hm1 : heap w !! module1 = Some m1)
    (Hm2 : heap w !! module2 = Some m2)
    (Hv1 : verifierFindsBroken m1 = false)
    (Hv2 : verifierFindsBroken m2 = false)
    (Hl : lookupTarget (registry w) triple = inl target) :
  let n := tmpnamCalls w in
  let machine := machineFor target triple proc features in
  let name1 := tmpnam n +:+ "_" +:+ moduleIdentifier m1 in
  let name2 := tmpnam (S n) +:+ "_" +:+ moduleIdentifier m2 in
  let path1 := name1 +:+ ".hsaco" in
  let path2 := name2 +:+ ".hsaco" in
  let object1 :=
    snd (emitFile machine CGFT_ObjectFile (configured machine triple m1)) in
  let files1 :=
    snd (ExecuteAndWait ld_lld (linkerArgs path1 (name1 +:+ ".o"))
           (writeFile (name1 +:+ ".o") object1
              (writeFile (name1 +:+ ".o") "" (files w)))) in
  openError (files w) (name1 +:+ ".o") = None ->
  openError files1 (name2 +:+ ".o") = None ->
  exists w1 w2,
    generate_hsaco module1 triple proc features w = Returned (path1, w1)
    /\ generate_hsaco module2 triple proc features w1 = Returned (path2, w2)
    /\ tmpnamCalls w2 = S (S n)
    /\ (moduleIdentifier m1 = moduleIdentifier m2 ->
        tmpnam n <> tmpnam (S n) -> path1 <> path2).
Proof.
  intros n machine name1 name2 path1 path2 object1 files1 Ho1 Ho2.
  pose proof (generate_hsaco_opened w module1 m1 triple proc features target
                Hm1 Hv1 Hl Ho1) as Hrun1.
  cbv zeta in Hrun1.
  match type of Hrun1 with _ = Returned (_, ?w1') => set (w1 := w1') in * end.
  assert (Hm2' : heap w1 !! module2 = Some m2).
  { subst w1. simpl. by rewrite list_lookup_insert_ne. }
  pose proof (generate_hsaco_opened w1 module2 m2 triple proc features target
                Hm2' Hv2 Hl Ho2) as Hrun2.
  cbv zeta in Hrun2.
  eexists _, _. split; [exact Hrun1|]. split; [exact Hrun2|].
  split; [reflexivity|].
  intros Hid Htmp Heq. subst path1 path2 name1 name2. rewrite Hid in Heq.
  apply string_app_inv_tail in Heq. apply string_app_inv_tail in Heq.
  done.
Qed.

(** X20.  A translation in which nothing goes wrong is silent: with the
    dump switched off, the object file opened and the linker exiting with
    0, the public entry returns the pair and prints nothing; it registers
    the five AMDGPU components, takes one temporary name, and leaves the
    files as the linker left them when started on the emitted object. *)
Theorem quiet_translation_prints_nothing (w : World IR) (module : nat)
    (m : Module IR) (cc : string) (target : Target)
    (Hm : heap w !! module = Some m)
    (Hv : verifierFindsBroken m = false)
    (Hl : lookupTarget
            (registry w ++ ["AMDGPUTarget"; "AMDGPUTargetInfo"; "AMDGPUTargetMC";
                            "AMDGPUAsmParser"; "AMDGPUAsmPrinter"])
            "amdgcn-amd-amdhsa" = inl target)
    (Hq : getBoolEnv "AMDGCN_ENABLE_DUMP" = false)
    (Ho : openError (files w)
            ((tmpnam (tmpnamCalls w) +:+ "_" +:+ moduleIdentifier m) +:+ ".o")
          = None) :
  let machine := machineFor target "amdgcn-amd-amdhsa" cc "+sramecc,-xnack" in
  let input := configured machine "amdgcn-amd-amdhsa" m in
  let kernel_name := tmpnam (tmpnamCalls w) +:+ "_" +:+ moduleIdentifier m in
  let object := snd (emitFile machine CGFT_ObjectFile input) in
  let linked :=
    ExecuteAndWait ld_lld
      (linkerArgs (kernel_name +:+ ".hsaco") (kernel_name +:+ ".o"))
      (writeFile (kernel_name +:+ ".o") object
         (writeFile (kernel_name +:+ ".o") "" (files w))) in
  fst (fst linked) = 0 ->
  exists w',
    translateLLVMIRToHSACO module cc w
    = Returned ((snd (emitFile machine CGFT_AssemblyFile input),
                 kernel_name +:+ ".hsaco"), w')
    /\ stdout w' = stdout w
    /\ files w' = snd linked
    /\ registry w'
       = registry w ++ ["AMDGPUTarget"; "AMDGPUTargetInfo"; "AMDGPUTargetMC";
                        "AMDGPUAsmParser"; "AMDGPUAsmPrinter"]
    /\ tmpnamCalls w' = S (tmpnamCalls w).
Proof.
  intros machine input kernel_name object linked Hcode.
  destruct (llir_after_assembly w module m cc target Hm Hv Hl) as [Hrun Hm2].
  cbv zeta in Hrun, Hm2. fold machine input in Hrun, Hm2.
  rewrite Hq in Hrun, Hm2.
  match type of Hm2 with heap ?w2' !! _ = _ => set (w2 := w2') in * end.
  pose proof (generate_hsaco_opened w2 (length (heap w)) m "amdgcn-amd-amdhsa"
                cc "+sramecc,-xnack" target Hm2 Hv Hl Ho) as Hobj.
  cbv zeta in Hobj. fold machine input in Hobj. simpl in Hobj.
  fold kernel_name object linked in Hobj. rewrite Hcode in Hobj.
  simpl in Hobj.
  eexists. split.
  - rewrite translate_is_llir, Hrun.
    rewrite (bind_Returned _ _ _ _ _ Hobj). reflexivity.
  - simpl. done.
Qed.

End Facts.

Section Registries.

Context {IR Target : Type}.
Variable verify : Module IR -> Verdict.
Variable createDataLayout : TargetMachine Target -> string.
Variable emitFile :
  TargetMachine Target -> CodeGenFileType -> Module IR -> Module IR * string.
Variable tmpnam : nat -> string.
Variable openError : FileSystem -> string -> option error_code.
Variable badDescriptorMessage : string.
Variable ExecuteAndWait :
  string -> list string -> FileSystem -> Z * string * FileSystem.
Variable getBoolEnv : string -> bool.

(** The translation over the target registry [lookupTarget]. *)
Abbreviation translateWith lookupTarget :=
  (translateLLVMIRToHSACO IR Target verify lookupTarget createDataLayout
     emitFile tmpnam openError badDescriptorMessage ExecuteAndWait getBoolEnv).
Abbreviation llirWith lookupTarget :=
  (llir_to_amdgcn_and_hsaco IR Target verify lookupTarget createDataLayout
     emitFile tmpnam openError badDescriptorMessage ExecuteAndWait getBoolEnv).

Lemma llir_resolved (lookupTarget : list string -> string -> Target + string)
    (w : World IR) (module : nat) (m : Module IR) (cc : string)
    (target : Target) :
  heap w !! module = Some m ->
  verifierFindsBroken IR verify m = false ->
  lookupTarget
    (registry w ++ ["AMDGPUTarget"; "AMDGPUTargetInfo"; "AMDGPUTargetMC";
                    "AMDGPUAsmParser"; "AMDGPUAsmPrinter"])
    "amdgcn-amd-amdhsa" = inl target ->
  exists result : World IR -> outcome (string * string * World IR),
    (forall lookupTarget' : list string -> string -> Target + string,
       lookupTarget'
         (registry w ++ ["AMDGPUTarget"; "AMDGPUTargetInfo"; "AMDGPUTargetMC";
                         "AMDGPUAsmParser"; "AMDGPUAsmPrinter"])
         "amdgcn-amd-amdhsa" = inl target ->
       llirWith lookupTarget' module cc w = result w).
Proof.
  intros Hm Hv Hl. eexists (fun _ => _). intros L HL.
  destruct (llir_after_assembly verify L createDataLayout emitFile tmpnam
              openError badDescriptorMessage ExecuteAndWait getBoolEnv
              w module m cc target Hm Hv HL) as [-> Hm2].
  pose proof (generate_hsaco_run verify L createDataLayout emitFile tmpnam
                openError badDescriptorMessage ExecuteAndWait
                _ (length (heap w)) m "amdgcn-amd-amdhsa" cc "+sramecc,-xnack"
                target Hm2 Hv HL) as Hobj.
  cbv zeta in Hobj. unfold bind at 1. rewrite Hobj. reflexivity.
Qed.

(** X16.  The translation and its public entry consult the target
    registry for one triple only, amdgcn-amd-amdhsa, and with the five
    AMDGPU components registered by [init_llvm]: over two registries that
    agree on that one lookup they end in the same way and leave the same
    process, whatever else the registries resolve and whatever triple the
    module carried. *)
Theorem translation_looks_up_only_the_amdgcn_target
    (lookupTarget1 lookupTarget2 : list string -> string -> Target + string)
    (w : World IR) (module : nat) (cc : string)
    (Hagree :
       lookupTarget1
         (registry w ++ ["AMDGPUTarget"; "AMDGPUTargetInfo"; "AMDGPUTargetMC";
                         "AMDGPUAsmParser"; "AMDGPUAsmPrinter"])
         "amdgcn-amd-amdhsa"
       = lookupTarget2
           (registry w ++ ["AMDGPUTarget"; "AMDGPUTargetInfo"; "AMDGPUTargetMC";
                           "AMDGPUAsmParser"; "AMDGPUAsmPrinter"])
           "amdgcn-amd-amdhsa") :
  llirWith lookupTarget1 module cc w = llirWith lookupTarget2 module cc w
  /\ translateWith lookupTarget1 module cc w
     = translateWith lookupTarget2 module cc w.
Proof.
  assert (Hllir : llirWith lookupTarget1 module cc w
                  = llirWith lookupTarget2 module cc w).
  { destruct (heap w !! module) as [m|] eqn:Hm.
    2: { by rewrite !llir_null. }
    destruct (verifierFindsBroken IR verify m) eqn:Hv.
    { by rewrite !(llir_broken _ _ _ _ _ _ _ _ _ w module m cc Hm Hv). }
    destruct (lookupTarget2
                (registry w ++ ["AMDGPUTarget"; "AMDGPUTargetInfo";
                                "AMDGPUTargetMC"; "AMDGPUAsmParser";
                                "AMDGPUAsmPrinter"])
                "amdgcn-amd-amdhsa") as [target|error] eqn:Hl2.
    - destruct (llir_resolved lookupTarget2 w module m cc target Hm Hv Hl2)
        as (result & Hresult).
      by rewrite (Hresult lookupTarget1 Hagree), (Hresult lookupTarget2 Hl2).
    - rewrite (llir_unresolved verify lookupTarget1 createDataLayout emitFile
                 tmpnam openError badDescriptorMessage ExecuteAndWait
                 getBoolEnv w module m cc error Hm Hv Hagree).
      by rewrite (llir_unresolved verify lookupTarget2 createDataLayout
                    emitFile tmpnam openError badDescriptorMessage
                    ExecuteAndWait getBoolEnv w module m cc error Hm Hv Hl2). }
  split; [exact Hllir|]. by rewrite !translate_is_llir.
Qed.

End Registries.





Lemma emission_branches_are_independent_witness :
  exists w',
    HSACO.llir_to_amdgcn_and_hsaco (list string) string sampleVerifier
      sampleLookup sampleDataLayout sampleEmit sampleTmpnam sampleOpen
      sampleBadDescriptor failingLinker sampleEnv 0%nat "gfx90a" sampleWorld
    = Returned (("s_endpgm", "/tmp/file0_kernel.hsaco"), w')
    /\ body <$> heap w'
       = [["add"; "lowered for assembly"]; ["add"; "lowered for object"]].
Proof.
  destruct (emission_branches_are_independent sampleVerifier sampleLookup
              sampleDataLayout sampleEmit sampleTmpnam sampleOpen
              sampleBadDescriptor failingLinker sampleEnv sampleWorld 0%nat
              sampleModule "gfx90a" "AMDGPU GCN" eq_refl eq_refl eq_refl
              eq_refl)
    as (w' & Hrun & Hheap).
  exists w'. split; [exact Hrun|]. rewrite Hheap. reflexivity.
Defined.

Lemma broken_module_is_fatal_witness :
  HSACO.llir_to_amdgcn_and_hsaco (list string) string rejectingVerifier
    sampleLookup sampleDataLayout sampleEmit sampleTmpnam sampleOpen
    sampleBadDescriptor failingLinker sampleEnv 0%nat "gfx90a" sampleWorld
  = FatalError "Broken function found, compilation aborted!"
  /\ HSACO.llir_to_amdgcn_and_hsaco (list string) string
       rejectingModuleVerifier sampleLookup sampleDataLayout sampleEmit
       sampleTmpnam sampleOpen sampleBadDescriptor failingLinker sampleEnv
       0%nat "gfx90a" sampleWorld
     = FatalError "Broken module found, compilation aborted!".
Proof.
  split.
  - exact (proj1 (proj2 (proj2 (proj2
      (broken_module_is_fatal rejectingVerifier sampleLookup sampleDataLayout
         sampleEmit sampleTmpnam sampleOpen sampleBadDescriptor failingLinker
         sampleEnv sampleWorld 0%nat sampleModule "amdgcn-amd-amdhsa" "gfx90a"
         "+sramecc,-xnack" "gfx90a" eq_refl eq_refl))))).
  - exact (proj1 (proj2 (proj2 (proj2
      (broken_module_is_fatal rejectingModuleVerifier sampleLookup
         sampleDataLayout sampleEmit sampleTmpnam sampleOpen
         sampleBadDescriptor failingLinker sampleEnv sampleWorld 0%nat
         sampleModule "amdgcn-amd-amdhsa" "gfx90a" "+sramecc,-xnack" "gfx90a"
         eq_refl eq_refl))))).
Defined.

Lemma initialize_module_configures_in_place_witness :
  exists machine w' m',
    HSACO.initialize_module (list string) string sampleVerifier sampleLookup
      sampleDataLayout 0%nat "amdgcn-amd-amdhsa" "gfx90a" "+sramecc,-xnack"
      registeredWorld = Returned (machine, w')
    /\ heap w' !! 0%nat = Some m'
    /\ targetTriple m' = "amdgcn-amd-amdhsa"
    /\ (forall f, f ∈ functions m' -> hasFnAttr AlwaysInline f = true).
Proof.
  destruct (initialize_module_configures_in_place sampleVerifier sampleLookup
              sampleDataLayout registeredWorld 0%nat sampleModule
              "amdgcn-amd-amdhsa" "gfx90a" "+sramecc,-xnack" "AMDGPU GCN"
              eq_refl eq_refl eq_refl)
    as (machine & w' & m' & Hrun & Hm' & _ & (Ht & _) & _ & Hall & _).
  exists machine, w', m'. repeat split; assumption.
Defined.

Lemma initialize_module_twice_is_once_witness :
  exists machine w',
    HSACO.initialize_module (list string) string sampleVerifier sampleLookup
      sampleDataLayout 0%nat "amdgcn-amd-amdhsa" "gfx90a" "+sramecc,-xnack"
      registeredWorld = Returned (machine, w')
    /\ HSACO.initialize_module (list string) string sampleVerifier sampleLookup
         sampleDataLayout 0%nat "amdgcn-amd-amdhsa" "gfx90a" "+sramecc,-xnack"
         w' = Returned (machine, w').
Proof.
  exact (initialize_module_twice_is_once sampleVerifier sampleLookup
           sampleDataLayout registeredWorld 0%nat sampleModule
           "amdgcn-amd-amdhsa" "gfx90a" "+sramecc,-xnack" "AMDGPU GCN"
           eq_refl eq_refl eq_refl eq_refl).
Defined.

Lemma assembly_stage_prints_only_on_request_witness :
  exists w',
    HSACO.generate_amdgcn_assembly (list string) string sampleVerifier
      sampleLookup sampleDataLayout sampleEmit sampleEnv
      0%nat "amdgcn-amd-amdhsa" "gfx90a" "+sramecc,-xnack" registeredWorld
    = Returned ("s_endpgm", w')
    /\ files w' = [] /\ stdout w' = "".
Proof.
  destruct (assembly_stage_prints_only_on_request sampleVerifier sampleLookup
              sampleDataLayout sampleEmit sampleEnv registeredWorld 0%nat
              sampleModule "amdgcn-amd-amdhsa" "gfx90a" "+sramecc,-xnack"
              "AMDGPU GCN" eq_refl eq_refl eq_refl)
    as (w' & Hrun & _ & Hfiles & _ & _ & Hquiet & _).
  exists w'. split; [exact Hrun|]. split; [exact Hfiles|].
  exact (Hquiet eq_refl).
Defined.


Lemma linker_sees_the_emitted_object_witness :
  exists fs w',
    HSACO.generate_hsaco (list string) string sampleVerifier sampleLookup
      sampleDataLayout sampleEmit sampleTmpnam sampleOpen sampleBadDescriptor
      failingLinker
      0%nat "amdgcn-amd-amdhsa" "gfx90a" "+sramecc,-xnack" registeredWorld
    = Returned ("/tmp/file0_kernel.hsaco", w')
    /\ readFile fs "/tmp/file0_kernel.o" = Some "ELF".
Proof.
  destruct (linker_sees_the_emitted_object sampleVerifier sampleLookup
              sampleDataLayout sampleEmit sampleTmpnam sampleOpen
              sampleBadDescriptor failingLinker registeredWorld 0%nat
              sampleModule "amdgcn-amd-amdhsa" "gfx90a" "+sramecc,-xnack"
              "AMDGPU GCN" eq_refl eq_refl eq_refl eq_refl)
    as (fs & w' & Hrun & _ & Hread & _).
  exists fs, w'. split; [exact Hrun | exact Hread].
Defined.

Lemma successive_runs_take_successive_names_witness :
  exists w1 w2,
    HSACO.generate_hsaco (list string) string sampleVerifier sampleLookup
      sampleDataLayout sampleEmit sampleTmpnam sampleOpen sampleBadDescriptor
      failingLinker
      0%nat "amdgcn-amd-amdhsa" "gfx90a" "+sramecc,-xnack" twoModulesWorld
    = Returned ("/tmp/file0_kernel.hsaco", w1)
    /\ HSACO.generate_hsaco (list string) string sampleVerifier sampleLookup
         sampleDataLayout sampleEmit sampleTmpnam sampleOpen
         sampleBadDescriptor failingLinker
         1%nat "amdgcn-amd-amdhsa" "gfx90a" "+sramecc,-xnack" w1
       = Returned ("/tmp/file1_kernel.hsaco", w2).
Proof.
  destruct (successive_runs_take_successive_names sampleVerifier sampleLookup
              sampleDataLayout sampleEmit sampleTmpnam sampleOpen
              sampleBadDescriptor failingLinker twoModulesWorld 0%nat 1%nat
              sampleModule sampleModule "amdgcn-amd-amdhsa" "gfx90a"
              "+sramecc,-xnack" "AMDGPU GCN" ltac:(discriminate) eq_refl
              eq_refl eq_refl eq_refl eq_refl eq_refl eq_refl)
    as (w1 & w2 & Hrun1 & Hrun2 & _).
  exists w1, w2. split; [exact Hrun1 | exact Hrun2].
Defined.

Lemma translation_looks_up_only_the_amdgcn_target_witness :
  sampleLookup [] "x86_64-unknown-linux-gnu"
  <> hostLookup [] "x86_64-unknown-linux-gnu"
  /\ HSACO.translateLLVMIRToHSACO (list string) string sampleVerifier
       sampleLookup sampleDataLayout sampleEmit sampleTmpnam sampleOpen
       sampleBadDescriptor quietLinker sampleEnv 0%nat "gfx90a" sampleWorld
     = HSACO.translateLLVMIRToHSACO (list string) string sampleVerifier
         hostLookup sampleDataLayout sampleEmit sampleTmpnam sampleOpen
         sampleBadDescriptor quietLinker sampleEnv 0%nat "gfx90a" sampleWorld.
Proof.
  split; [discriminate|].
  exact (proj2
    (translation_looks_up_only_the_amdgcn_target sampleVerifier
       sampleDataLayout sampleEmit sampleTmpnam sampleOpen sampleBadDescriptor
       quietLinker sampleEnv sampleLookup hostLookup sampleWorld 0%nat
       "gfx90a" eq_refl)).
Defined.

Lemma quiet_translation_prints_nothing_witness :
  exists w',
    HSACO.translateLLVMIRToHSACO (list string) string sampleVerifier
      sampleLookup sampleDataLayout sampleEmit sampleTmpnam sampleOpen
      sampleBadDescriptor quietLinker sampleEnv 0%nat "gfx90a" sampleWorld
    = Returned (("s_endpgm", "/tmp/file0_kernel.hsaco"), w')
    /\ stdout w' = "".
Proof.
  destruct (quiet_translation_prints_nothing sampleVerifier sampleLookup
              sampleDataLayout sampleEmit sampleTmpnam sampleOpen
              sampleBadDescriptor quietLinker sampleEnv sampleWorld 0%nat
              sampleModule "gfx90a" "AMDGPU GCN" eq_refl eq_refl eq_refl
              eq_refl eq_refl eq_refl)
    as (w' & Hrun & Hout & _).
  exists w'. split; [exact Hrun | exact Hout].
Defined.

End HSACOFacts.

(** ** More on the store and load builders (Ops.cpp) *)

Module OpsMoreFacts.
Import Ops.

(** X17.  The builders use the result of [dyn_cast] unchecked: for a [ptr]
    that is not a tensor of pointers [LoadOp::build] ends in a call through
    a null type, and so does [StoreOp::build] for a [ptr] that is no tensor
    at all; nothing is built. *)
Theorem builders_need_a_pointer_tensor (ptr value : Value) (b : OpBuilder)
    (st : OperationState)
    (Hty : forall shape pointee,
       vType ptr <> RankedTensorType shape (PointerType pointee)) :
  LoadOp_build ptr (b, st) = NullDeref
  /\ ((forall shape elt, vType ptr <> RankedTensorType shape elt) ->
      StoreOp_build ptr value (b, st) = NullDeref).
Proof.
  split.
  - unfold LoadOp_build.
    destruct (vType ptr) as [n|n| |p|shape elt] eqn:Ht; try reflexivity.
    destruct elt as [n|n| |p|s e]; try reflexivity.
    by destruct (Hty shape p).
  - intros Hnt. unfold StoreOp_build.
    destruct (vType ptr) as [n|n| |p|shape elt] eqn:Ht; try reflexivity.
    by destruct (Hnt shape elt).
Qed.

Lemma builders_need_a_pointer_tensor_witness :
  LoadOp_build scalarPtr ({| inserted := [] |}, {| operands := []; types := [] |})
  = NullDeref
  /\ StoreOp_build scalarPtr sampleValue
       ({| inserted := [] |}, {| operands := []; types := [] |})
     = NullDeref.
Proof.
  destruct (builders_need_a_pointer_tensor scalarPtr sampleValue
              {| inserted := [] |} {| operands := []; types := [] |})
    as [Hload Hstore].
  - intros shape pointee. discriminate.
  - split; [exact Hload|]. apply Hstore. intros shape elt. discriminate.
Defined.

(** X18.  On a tensor of pointers to an integer, floating-point or index
    type both builders only append: the operations already inserted and
    the operands and types already in the state stay in front.
    [StoreOp::build] inserts one constant and [LoadOp::build] two, mask
    before other, each at the location of [ptr]; and for the same [ptr]
    and builder the two build the very same mask. *)
Theorem builders_append_constants_at_ptr_location (ptr value : Value)
    (shape : list Z) (pointee : MType) (b : OpBuilder) (st : OperationState)
    (Hptr : vType ptr = RankedTensorType shape (PointerType pointee))
    (Hkind : (exists width, pointee = IntegerType width)
             \/ (exists width, pointee = FloatType width)
             \/ pointee = IndexType) :
  exists mask other maskOp otherOp,
    StoreOp_build ptr value (b, st)
    = Returned (tt, ({| inserted := inserted b ++ [maskOp] |},
                     {| operands := operands st ++ [ptr; value; mask];
                        types := types st |}))
    /\ LoadOp_build ptr (b, st)
       = Returned (tt, ({| inserted := inserted b ++ [maskOp; otherOp] |},
                        {| operands := operands st ++ [ptr; mask; other];
                           types := types st
                                    ++ [RankedTensorType shape pointee] |}))
    /\ cLoc maskOp = vLoc ptr /\ cLoc otherOp = vLoc ptr
    /\ vLoc mask = vLoc ptr /\ vLoc other = vLoc ptr
    /\ vDef mask = OpResult (length (inserted b))
    /\ vDef other = OpResult (S (length (inserted b))).
Proof.
  pose proof (OpsFacts.getZeroAttr_scalar pointee Hkind) as Hnz.
  eexists _, _, _, _. split; [|split].
  - exact (OpsFacts.StoreOp_build_run ptr value shape _ b st Hptr).
  - exact (OpsFacts.LoadOp_build_run ptr shape pointee _ b st Hptr eq_refl
             Hnz).
  - simpl. done.
Qed.

Lemma builders_append_constants_at_ptr_location_witness :
  exists mask other maskOp otherOp,
    LoadOp_build samplePtr
      ({| inserted := [] |}, {| operands := []; types := [] |})
    = Returned (tt, ({| inserted := [maskOp; otherOp] |},
                     {| operands := [samplePtr; mask; other];
                        types := [RankedTensorType [2; 3] (FloatType 32)] |}))
    /\ cLoc maskOp = 7%nat /\ cLoc otherOp = 7%nat.
Proof.
  destruct (builders_append_constants_at_ptr_location samplePtr sampleValue
              [2; 3] (FloatType 32) {| inserted := [] |}
              {| operands := []; types := [] |} eq_refl
              (or_intror (or_introl (ex_intro _ 32%N eq_refl))))
    as (mask & other & maskOp & otherOp & _ & Hload & Hm & Ho & _).
  exists mask, other, maskOp, otherOp.
  split; [exact Hload|]. split; [exact Hm | exact Ho].
Defined.

End OpsMoreFacts.
